(** * flu: a chainable terminal styling library

    A shallow embedding of [src/internal/constants.ts], [src/internal/utils.ts]
    and [src/internal/core.ts], and the properties of the style compositor,
    the colour helpers and the proxy builder that the specification states.

    Conventions of the embedding:
    - a JavaScript string is the list of its UTF-16 code units;
    - a JavaScript number is NaN, one of the two infinities, or a finite
      rational (every finite double is one; the two zeros are identified,
      which no function below can tell apart);
    - a [Record<string, T>] table is a finite map over its own properties,
      its prototype kept under the key [__proto__];
    - a function that can throw returns an [Outcome];
    - the arrays captured by builders live in a store indexed by locations,
      and the registry is a component of the same world, shared by every
      builder of a root. *)

From Stdlib Require Import ZArith NArith QArith Qround Lia.
From Stdlib Require Import Strings.String Strings.Ascii.
From Stdlib Require Import Numbers.DecimalString.
From Stdlib Require Numbers.DecimalZ.
From stdpp Require Import base option list gmap.

Close Scope Q_scope.
Close Scope Z_scope.
Close Scope N_scope.
Open Scope nat_scope.
Open Scope list_scope.

(** ** Strings *)

Module JS.

(** A JavaScript string. *)
Definition str : Type := list N.

Fixpoint ofString (s : string) : str :=
  match s with
  | EmptyString => []
  | String a rest => N_of_ascii a :: ofString rest
  end.

(** [s.startsWith(p)], also what a sticky literal match at the head of [s]
    decides. *)
Fixpoint startsWith (p s : str) : bool :=
  match p, s with
  | [], _ => true
  | _ :: _, [] => false
  | a :: p', b :: s' => if N.eqb a b then startsWith p' s' else false
  end.

(** [s.includes(p)]: [p] occurs at some position of [s]. *)
Fixpoint includes (p s : str) : bool :=
  startsWith p s ||
  match s with
  | [] => false
  | _ :: s' => includes p s'
  end.

(** [s.indexOf(p)], with [None] for -1. *)
Fixpoint indexOf (p s : str) : option nat :=
  if startsWith p s then Some 0
  else match s with
       | [] => None
       | _ :: s' => S <$> indexOf p s'
       end.

(** [parts.join(sep)]. *)
Fixpoint join (sep : str) (parts : list str) : str :=
  match parts with
  | [] => []
  | [x] => x
  | x :: rest => x ++ sep ++ join sep rest
  end.

(** [s.slice(from, to)] for non-negative indices. *)
Definition slice (from to : nat) (s : str) : str :=
  take (to - from) (drop from s).

(** The decimal digits of an integer, as [Number.prototype.toString] prints
    an integral value. *)
Definition ofZ (z : Z) : str :=
  ofString (NilEmpty.string_of_int (Z.to_int z)).

End JS.

Abbreviation jsstring := JS.str.
Notation "'js' s" := (JS.ofString s%string) (at level 9, s at level 0, only parsing).

(** Code units that the sources name. *)
Definition DOLLAR : N := 36%N.
Definition AMPERSAND : N := 38%N.
Definition BACKTICK : N := 96%N.
Definition QUOTE : N := 39%N.
Definition BACKSLASH : N := 92%N.
Definition HASH : N := 35%N.
Definition SPACE : N := 32%N.

(** ** Outcomes of calls that may throw *)

Inductive JSError : Type :=
  | Error (message : jsstring)    (* [new Error(message)] *)
  | TypeError                     (* raised by the runtime *)
  | Thrown.                       (* whatever else a method of an argument throws *)

Inductive Outcome (A : Type) : Type :=
  | Returns (a : A)
  | Throws (e : JSError).
Arguments Returns {A} a.
Arguments Throws {A} e.

Definition bindO {A B} (m : Outcome A) (k : A -> Outcome B) : Outcome B :=
  match m with
  | Returns a => k a
  | Throws e => Throws e
  end.

(** ** constants.ts *)

(** [ESC = "\u001B["] *)
Definition ESC : jsstring := [27%N; 91%N].

(** [code = (n) => `${ESC}${n}m`] *)
Definition code (n : Z) : jsstring := ESC ++ JS.ofZ n ++ js "m".

Definition FG_BASE : Z := 30.
Definition BG_BASE : Z := 40.
Definition FG_BRIGHT_BASE : Z := 90.
Definition BG_BRIGHT_BASE : Z := 100.

Definition FG_CLOSE : jsstring := code 39.
Definition BG_CLOSE : jsstring := code 49.

Definition BASE_COLORS : list jsstring :=
  [js "black"; js "red"; js "green"; js "yellow";
   js "blue"; js "magenta"; js "cyan"; js "white"].

(** ** utils.ts *)

(** [type Style = { open: string; close: string }] *)
Record Style : Type := mkStyle { open : jsstring; close : jsstring }.

(** [escapeRegExp]: every character of the class [[.*+?^${}()|[\]\\]] gets a
    backslash in front ([str.replace(/.../g, "\\$&")]). *)
Definition syntaxCharacter (c : N) : bool :=
  existsb (N.eqb c) (js ".*+?^${}()|[]\").

Definition escapeRegExp (s : jsstring) : jsstring :=
  flat_map (fun c => if syntaxCharacter c then [BACKSLASH; c] else [c]) s.

(** *** Regular expressions, as far as [applyStyles] builds them

    The pattern sources that reach [new RegExp] are sequences of pattern
    characters and identity escapes of syntax characters; such a source
    denotes the literal string [parsePattern] returns.  Other sources are
    outside this fragment ([None]). *)
Fixpoint parsePattern (source : jsstring) : option jsstring :=
  match source with
  | [] => Some []
  | c :: rest =>
      if N.eqb c BACKSLASH then
        match rest with
        | d :: rest' =>
            if syntaxCharacter d then cons d <$> parsePattern rest' else None
        | [] => None
        end
      else if syntaxCharacter c then None
      else cons c <$> parsePattern rest
  end.

(** [GetSubstitution(matched, str, position, captures, undefined, template)]
    for a pattern without capture groups: [$$] is a dollar sign, [$&] the
    match, [$`] the part of the subject before the match, [$'] the part
    after it; a dollar sign in front of anything else (digits and [<]
    included, there being no groups) stands for itself. *)
Fixpoint getSubstitution (matched before after template : jsstring) : jsstring :=
  match template with
  | [] => []
  | c :: rest =>
      if N.eqb c DOLLAR then
        match rest with
        | d :: rest' =>
            if N.eqb d DOLLAR then DOLLAR :: getSubstitution matched before after rest'
            else if N.eqb d AMPERSAND then matched ++ getSubstitution matched before after rest'
            else if N.eqb d BACKTICK then before ++ getSubstitution matched before after rest'
            else if N.eqb d QUOTE then after ++ getSubstitution matched before after rest'
            else c :: getSubstitution matched before after rest
        | [] => [c]
        end
      else c :: getSubstitution matched before after rest
  end.

(** [RegExp.prototype[Symbol.replace]] with the [g] flag, for the literal
    pattern [lit] and a string template.  Matches are found left to right
    from [lastIndex]; after a match the scan resumes behind it, and behind
    the next code unit when the match is empty.  [before] is the part of the
    subject already scanned; [fuel] bounds the number of scan steps and is
    never exhausted when it exceeds the length of the subject. *)
Fixpoint replaceFrom (lit template : jsstring) (fuel : nat)
    (before subject : jsstring) : jsstring :=
  match fuel with
  | O => subject
  | S fuel' =>
      if JS.startsWith lit subject then
        let after := drop (length lit) subject in
        let replacement := getSubstitution lit before after template in
        match lit, subject with
        | [], [] => replacement
        | [], c :: rest =>
            replacement ++ c :: replaceFrom lit template fuel' (before ++ [c]) rest
        | _ :: _, _ =>
            replacement ++ replaceFrom lit template fuel' (before ++ lit) after
        end
      else
        match subject with
        | [] => []
        | c :: rest => c :: replaceFrom lit template fuel' (before ++ [c]) rest
        end
  end.

(** [subject.replace(new RegExp(source, "g"), template)] *)
Definition replace_g (source template subject : jsstring) : jsstring :=
  match parsePattern source with
  | Some lit => replaceFrom lit template (S (length subject)) [] subject
  | None => subject
  end.

(** The body of the loop of [applyStyles]:
    [out = s.open + out.replace(pattern, s.close + s.open) + s.close]
    with [pattern = new RegExp(escapeRegExp(s.close), "g")]. *)
Definition applyStyle (out : jsstring) (s : Style) : jsstring :=
  let pattern := escapeRegExp (close s) in
  open s ++ replace_g pattern (close s ++ open s) out ++ close s.

(** [applyStyles(text, styles)] *)
Definition applyStyles (text : jsstring) (styles : list Style) : jsstring :=
  if (length styles =? 0) || (length text =? 0) then text
  else fold_left applyStyle styles text.

(** [joinArgs(args)]: every argument is given by the string [String(a)]
    returns for it. *)
Definition joinArgs (args : list jsstring) : jsstring := JS.join (js " ") args.

(** *** Numbers *)

Inductive JSNumber : Type :=
  | NaN
  | PosInfinity
  | NegInfinity
  | Finite (q : Q).

(** The values that reach the functions below as arguments: the seven
    primitive types and objects.  [Number(v)] on a string rounds a decimal
    literal to a double and on a BigInt rounds the integer; that conversion
    belongs to the runtime, so a string and a BigInt come with the number
    they convert to.  An object is converted by its own methods, which may
    return anything or throw, so it comes with what [Number(v)] makes of it
    and with what [parseHex(v)], which calls its [trim], makes of it. *)
Inductive JSValue : Type :=
  | VUndefined
  | VNull
  | VBoolean (b : bool)
  | VNumber (n : JSNumber)
  | VString (s : jsstring) (asNumber : JSNumber)
  | VBigInt (z : Z) (asNumber : JSNumber)
  | VSymbol
  | VObject (asNumber : Outcome JSNumber)
            (asHex : Outcome (JSNumber * JSNumber * JSNumber)).

Definition Number_isNaN (n : JSNumber) : bool :=
  match n with NaN => true | _ => false end.

Definition Math_floor (n : JSNumber) : JSNumber :=
  match n with
  | Finite q => Finite (inject_Z (Qfloor q))
  | _ => n
  end.

(** [a <= b] on numbers; false when either side is NaN. *)
Definition number_le (a b : JSNumber) : bool :=
  match a, b with
  | NaN, _ | _, NaN => false
  | NegInfinity, _ => true
  | _, PosInfinity => true
  | PosInfinity, _ => false
  | _, NegInfinity => false
  | Finite p, Finite q => Qle_bool p q
  end.

Definition Math_max (a b : JSNumber) : JSNumber :=
  match a, b with
  | NaN, _ | _, NaN => NaN
  | _, _ => if number_le a b then b else a
  end.

Definition Math_min (a b : JSNumber) : JSNumber :=
  match a, b with
  | NaN, _ | _, NaN => NaN
  | _, _ => if number_le a b then a else b
  end.

(** [`${n}`] for a number: exact on NaN, the infinities and the integral
    values, which are all that [truecolor] prints. *)
Definition Number_toString (n : JSNumber) : jsstring :=
  match n with
  | NaN => js "NaN"
  | PosInfinity => js "Infinity"
  | NegInfinity => js "-Infinity"
  | Finite q => JS.ofZ (Qfloor q)
  end.

(** White space and line terminators, the code units [trim] removes and
    [parseInt] skips. *)
Definition isWhiteSpace (c : N) : bool :=
  (existsb (N.eqb c)
     [0x9; 0xA; 0xB; 0xC; 0xD; 0x20; 0xA0; 0x1680; 0x2028; 0x2029; 0x202F;
      0x205F; 0x3000; 0xFEFF]
   || (0x2000 <=? c) && (c <=? 0x200A))%N.

Fixpoint trimStart (s : jsstring) : jsstring :=
  match s with
  | c :: rest => if isWhiteSpace c then trimStart rest else s
  | [] => []
  end.

Definition trimEnd (s : jsstring) : jsstring := rev (trimStart (rev s)).

Definition trim (s : jsstring) : jsstring := trimEnd (trimStart s).

(** The value of a hexadecimal digit, either case. *)
Definition hexDigit (c : N) : option Z :=
  (if (48 <=? c) && (c <=? 57) then Some (Z.of_N c - 48)%Z
   else if (97 <=? c) && (c <=? 102) then Some (Z.of_N c - 87)%Z
   else if (65 <=? c) && (c <=? 70) then Some (Z.of_N c - 55)%Z
   else None)%N.

(** The value of the longest prefix of hexadecimal digits, when there is
    one. *)
Fixpoint hexPrefix (acc : option Z) (s : jsstring) : option Z :=
  match s with
  | c :: rest =>
      match hexDigit c with
      | Some d => hexPrefix (Some (16 * default 0 acc + d)%Z) rest
      | None => acc
      end
  | [] => acc
  end.

(** [parseInt(s, 16)]: leading white space, a sign and a [0x] prefix are
    skipped, the longest run of digits is read, and no digit at all is NaN. *)
Definition parseInt16 (s : jsstring) : JSNumber :=
  let s1 := trimStart s in
  let '(sign, s2) :=
    match s1 with
    | c :: rest =>
        if N.eqb c 45 then ((-1)%Z, rest)
        else if N.eqb c 43 then (1%Z, rest)
        else (1%Z, s1)
    | [] => (1%Z, s1)
    end in
  let s3 :=
    match s2 with
    | a :: b :: rest =>
        if N.eqb a 48 && (N.eqb b 120 || N.eqb b 88) then rest else s2
    | _ => s2
    end in
  match hexPrefix None s3 with
  | Some v => Finite (inject_Z (sign * v))
  | None => NaN
  end.

(** The class [[0-9a-f]] under the [i] flag. *)
Definition isHexClass (c : N) : bool :=
  ((48 <=? c) && (c <=? 57) || (97 <=? c) && (c <=? 102)
   || (65 <=? c) && (c <=? 70))%N.

(** [/[^0-9a-f]/i.test(h)] *)
Definition hasNonHex (h : jsstring) : bool :=
  existsb (fun c => negb (isHexClass c)) h.

(** [h.replace(/^#/u, "")] *)
Definition stripHash (h : jsstring) : jsstring :=
  match h with
  | c :: rest => if N.eqb c HASH then rest else h
  | [] => []
  end.

(** [parseHex(hex)] *)
Definition parseHex (hex : jsstring) : Outcome (JSNumber * JSNumber * JSNumber) :=
  let h := stripHash (trim hex) in
  let h := if length h =? 3 then flat_map (fun c => [c; c]) h else h in
  if negb (length h =? 6) || hasNonHex h then
    Throws (Error (js "Invalid hex color: " ++ hex))
  else
    let r := parseInt16 (JS.slice 0 2 h) in
    let g := parseInt16 (JS.slice 2 4 h) in
    let b := parseInt16 (JS.slice 4 6 h) in
    Returns (r, g, b).

(** [Number(v)]: a Symbol cannot be converted and throws. *)
Definition Number_ (v : JSValue) : Outcome JSNumber :=
  match v with
  | VUndefined => Returns NaN
  | VNull => Returns (Finite 0)
  | VBoolean b => Returns (Finite (if b then 1 else 0))
  | VNumber n => Returns n
  | VString _ asNumber => Returns asNumber
  | VBigInt _ asNumber => Returns asNumber
  | VSymbol => Throws TypeError
  | VObject asNumber _ => asNumber
  end.

(** [clamp255(n)] *)
Definition clamp255 (n : JSValue) : Outcome JSNumber :=
  bindO (Number_ n) (fun n =>
    if Number_isNaN n then Returns (Finite 0)
    else Returns (Math_min (Finite 255) (Math_max (Finite 0) (Math_floor n)))).

(** [truecolor(openBase, r, g, b)] *)
Definition truecolor (openBase : Z) (r g b : JSValue) : Outcome Style :=
  bindO (clamp255 r) (fun R =>
  bindO (clamp255 g) (fun G =>
  bindO (clamp255 b) (fun B =>
    let open := ESC ++ JS.ofZ openBase ++ js ";2;" ++ Number_toString R ++ js ";"
                ++ Number_toString G ++ js ";" ++ Number_toString B ++ js "m" in
    let close := if (openBase =? 38)%Z then FG_CLOSE else BG_CLOSE in
    Returns {| open := open; close := close |}))).

(** ** core.ts *)

(** [type StyleFactory = (...args: any[]) => Style] *)
Definition StyleFactory : Type := list JSValue -> Outcome Style.

(** [type Registry]: the two tables, by their own properties, with the
    prototype of a table kept under the key [__proto__]. *)
Record Registry : Type := mkRegistry {
  styles : gmap jsstring Style;
  dynamics : gmap jsstring StyleFactory
}.

(** [modifierCodes] *)
Definition modifierCodes : list (jsstring * Style) :=
  [ (js "reset", mkStyle (code 0) (code 0));
    (js "bold", mkStyle (code 1) (code 22));
    (js "dim", mkStyle (code 2) (code 22));
    (js "italic", mkStyle (code 3) (code 23));
    (js "underline", mkStyle (code 4) (code 24));
    (js "inverse", mkStyle (code 7) (code 27));
    (js "hidden", mkStyle (code 8) (code 28));
    (js "strikethrough", mkStyle (code 9) (code 29)) ].

(** [capitalize(s)]; [toUpperCase] is modelled on the letters a to z, which
    is what the names of [BASE_COLORS] are made of. *)
Definition toUpperCase (c : N) : N :=
  (if (97 <=? c) && (c <=? 122) then c - 32 else c)%N.

Definition capitalize (s : jsstring) : jsstring :=
  match s with
  | c :: rest => toUpperCase c :: rest
  | [] => []
  end.

(** The argument at index [i] of a call, [undefined] when it is missing. *)
Definition arg (i : nat) (args : list JSValue) : JSValue :=
  default VUndefined (args !! i).

(** The four built-in factories. *)
Definition rgb : StyleFactory :=
  fun args => truecolor 38 (arg 0 args) (arg 1 args) (arg 2 args).

Definition bgRgb : StyleFactory :=
  fun args => truecolor 48 (arg 0 args) (arg 1 args) (arg 2 args).

(** [parseHex(h)] on any value: [h.trim()] exists on strings; on the other
    primitives the call throws a TypeError; an object answers with its own
    [trim]. *)
Definition parseHexOf (h : JSValue) : Outcome (JSNumber * JSNumber * JSNumber) :=
  match h with
  | VString s _ => parseHex s
  | VObject _ asHex => asHex
  | _ => Throws TypeError
  end.

Definition hexWith (openBase : Z) : StyleFactory :=
  fun args =>
    bindO (parseHexOf (arg 0 args)) (fun '(r, g, b) =>
      truecolor openBase (VNumber r) (VNumber g) (VNumber b)).

Definition hex : StyleFactory := hexWith 38.
Definition bgHex : StyleFactory := hexWith 48.

(** The body of [BASE_COLORS.forEach((name, i) => ...)]. *)
Definition addBaseColor (tbl : gmap jsstring Style) (i : nat) (name : jsstring)
    : gmap jsstring Style :=
  let i := Z.of_nat i in
  let tbl := <[name := mkStyle (code (FG_BASE + i)) FG_CLOSE]> tbl in
  let brightName := name ++ js "Bright" in
  let brightCode := (FG_BRIGHT_BASE + i)%Z in
  let tbl := <[brightName := mkStyle (code brightCode) FG_CLOSE]> tbl in
  let bgName := js "bg" ++ capitalize name in
  let tbl := <[bgName := mkStyle (code (BG_BASE + i)) BG_CLOSE]> tbl in
  let bgBrightName := js "bg" ++ capitalize name ++ js "Bright" in
  let bgBrightCode := (BG_BRIGHT_BASE + i)%Z in
  <[bgBrightName := mkStyle (code bgBrightCode) BG_CLOSE]> tbl.

Fixpoint forEachFrom (i : nat) (names : list jsstring) (tbl : gmap jsstring Style)
    : gmap jsstring Style :=
  match names with
  | [] => tbl
  | name :: rest => forEachFrom (S i) rest (addBaseColor tbl i name)
  end.

(** [createDefaultRegistry()] *)
Definition createDefaultRegistry : Registry :=
  let tbl : gmap jsstring Style := list_to_map modifierCodes in
  let tbl := forEachFrom 0 BASE_COLORS tbl in
  let gray := mkStyle (code FG_BRIGHT_BASE) FG_CLOSE in
  let tbl := <[js "gray" := gray]> (<[js "grey" := gray]> tbl) in
  let bgGray := mkStyle (code BG_BRIGHT_BASE) BG_CLOSE in
  let tbl := <[js "bgGray" := bgGray]> (<[js "bgGrey" := bgGray]> tbl) in
  let dyn : gmap jsstring StyleFactory :=
    <[js "rgb" := rgb]> (<[js "bgRgb" := bgRgb]>
      (<[js "hex" := hex]> (<[js "bgHex" := bgHex]> ∅))) in
  {| styles := tbl; dynamics := dyn |}.

(** *** The world of one root

    [createFlu] builds one registry; every builder made from it closes over
    that registry and over the array of styles it was created with.  The
    arrays are kept in a store, so that a builder is the location of its
    array and sharing is visible. *)
Definition loc : Type := positive.

Record World : Type := mkWorld {
  registry : Registry;
  arrays : gmap loc (list Style)
}.

(** The builder [create(styles)] returns: its target carries the array as
    [__styles], and its handlers close over the same array. *)
Record Builder : Type := mkBuilder { __styles : loc }.

Definition create (l : loc) : Builder := {| __styles := l |}.

(** An array literal: a new array at a location the store does not use. *)
Definition allocate (w : World) (elems : list Style) : World * loc :=
  let l := fresh (dom (arrays w)) in
  ({| registry := registry w; arrays := <[l := elems]> (arrays w) |}, l).

(** The array a builder closes over. *)
Definition stylesOf (w : World) (b : Builder) : list Style :=
  arrays w !!! __styles b.

Inductive Symbol : Type :=
  | Symbol_toPrimitive
  | Symbol_other (description : jsstring).

Inductive PropertyKey : Type :=
  | PString (name : jsstring)
  | PSymbol (s : Symbol).

#[global] Instance Symbol_eq_dec : EqDecision Symbol.
Proof. solve_decision. Defined.

#[global] Instance PropertyKey_eq_dec : EqDecision PropertyKey.
Proof. solve_decision. Defined.

(** The names every object inherits from [Object.prototype]. *)
Definition objectPrototypeNames : list jsstring :=
  [js "constructor"; js "hasOwnProperty"; js "isPrototypeOf";
   js "propertyIsEnumerable"; js "toLocaleString"; js "toString";
   js "valueOf"; js "__proto__"; js "__defineGetter__"; js "__defineSetter__";
   js "__lookupGetter__"; js "__lookupSetter__"].

(** The prototype chain of the static table.  The entry of a table under
    [__proto__] stands for its prototype: [table["__proto__"] = v] sets the
    prototype to [v] and [table["__proto__"]] reads it, so an insertion and
    a lookup under that key are what the code does.  For a name without an
    entry of its own, [registry.styles[name]] is truthy when the name is a
    member of [Object.prototype] (for [__proto__] itself the value is then
    [Object.prototype]), or when the prototype has been set to a style and
    the name is [open] or [close] with a non-empty sequence: the value is
    inherited and is not a style. *)
Definition inheritedStatic (reg : Registry) (name : jsstring) : bool :=
  bool_decide (name ∈ objectPrototypeNames)
  || match styles reg !! js "__proto__" with
     | Some st =>
         bool_decide (name = js "open") && negb (length (open st) =? 0)
         || bool_decide (name = js "close") && negb (length (close st) =? 0)
     | None => false
     end.

(** What the [get] trap returns. *)
Inductive Property : Type :=
  | RegisterStyle           (* (name, open, close) => { registry.styles[name] = ... } *)
  | RegisterDynamicStyle    (* (name, factory) => { registry.dynamics[name] = factory } *)
  | Extend                  (* (defs) => { ... } *)
  | Chained (b : Builder)   (* create([...styles, st]) *)
  | DynamicAccessor (parent : Builder) (prop : jsstring)
                            (* (...args) => create([...styles, registry.dynamics[prop](...args)]) *)
  | ToPrimitive (parent : Builder)
                            (* () => applyStyles("", styles) *)
  | ChainedForeign (parent : Builder) (prop : jsstring)
                            (* create([...styles, v]) for the inherited value v
                               of the static table under prop, which is not a
                               style: a builder that throws a TypeError when it
                               renders a non-empty text; its array is not kept
                               in the store *)
  | FactoryMember (parent : Builder) (prop : jsstring)
                            (* the prototype of the dynamic table has been set
                               to a factory and prop has no entry of its own:
                               the accessor when that function object has a
                               truthy property prop, undefined otherwise *)
  | Undefined.

(** [handler.get(_t, prop)] of the builder [b]. *)
Definition get (w : World) (b : Builder) (prop : PropertyKey) : World * Property :=
  if decide (prop = PString (js "registerStyle")) then (w, RegisterStyle)
  else if decide (prop = PString (js "registerDynamicStyle")) then
    (w, RegisterDynamicStyle)
  else if decide (prop = PString (js "extend")) then (w, Extend)
  else
    let resolved :=
      match prop with
      | PString name =>
          match styles (registry w) !! name with
          | Some st =>
              let '(w', l) := allocate w (stylesOf w b ++ [st]) in
              Some (w', Chained (create l))
          | None =>
              if inheritedStatic (registry w) name then
                Some (w, ChainedForeign b name)
              else
                match dynamics (registry w) !! name with
                | Some _ => Some (w, DynamicAccessor b name)
                | None =>
                    match dynamics (registry w) !! js "__proto__" with
                    | Some _ => Some (w, FactoryMember b name)
                    | None => None
                    end
                end
          end
      | PSymbol _ => None
      end in
    match resolved with
    | Some result => result
    | None =>
        if decide (prop = PSymbol Symbol_toPrimitive) then (w, ToPrimitive b)
        else (w, Undefined)
    end.

(** [handler.apply(_t, _thisArg, argArray)] of the builder [b]. *)
Definition apply (w : World) (b : Builder) (argArray : list jsstring) : jsstring :=
  applyStyles (joinArgs argArray) (stylesOf w b).

(** Calling what [get] returned. *)
Definition callRegisterStyle (w : World) (name open close : jsstring) : World :=
  {| registry := {| styles := <[name := mkStyle open close]> (styles (registry w));
                    dynamics := dynamics (registry w) |};
     arrays := arrays w |}.

Definition callRegisterDynamicStyle (w : World) (name : jsstring)
    (factory : StyleFactory) : World :=
  {| registry := {| styles := styles (registry w);
                    dynamics := <[name := factory]> (dynamics (registry w)) |};
     arrays := arrays w |}.

(** [for (const [k, v] of Object.entries(defs))]: a function goes to the
    dynamic table, anything else to the static one. *)
Definition callExtend (w : World) (defs : list (jsstring * (Style + StyleFactory)))
    : World :=
  fold_left (fun w '(k, v) =>
               match v with
               | inr f => callRegisterDynamicStyle w k f
               | inl st => callRegisterStyle w k (open st) (close st)
               end) defs w.

(** The factory is looked up when the accessor is called, and what it throws
    is not caught. *)
Definition callDynamicAccessor (w : World) (parent : Builder) (prop : jsstring)
    (args : list JSValue) : Outcome (World * Builder) :=
  match dynamics (registry w) !! prop with
  | Some factory =>
      bindO (factory args) (fun st =>
        let '(w', l) := allocate w (stylesOf w parent ++ [st]) in
        Returns (w', create l))
  | None => Throws TypeError
  end.

Definition callToPrimitive (w : World) (parent : Builder) : jsstring :=
  applyStyles [] (stylesOf w parent).

(** [createFlu()] *)
Definition createFlu : World * Builder :=
  let '(w, l) := allocate {| registry := createDefaultRegistry; arrays := ∅ |} [] in
  (w, create l).

(** ** Notions the properties are stated with *)

(** [out.slice(s.open.length, out.length - s.close.length)]: what is left of
    a rendering once the wrapper of [s] is cut off by length. *)
Definition stripWrapper (s : Style) (out : jsstring) : jsstring :=
  JS.slice (length (open s)) (length out - length (close s)) out.

(** A template in which no dollar sign occurs. *)
Definition dollarFree (template : jsstring) : bool :=
  negb (existsb (N.eqb DOLLAR) template).

(** [s.split(sep)] for a non-empty separator: the pieces between the
    occurrences of [sep], found from left to right without overlap.  [piece]
    is the piece being read. *)
Fixpoint splitFrom (sep : jsstring) (fuel : nat) (piece s : jsstring)
    : list jsstring :=
  match fuel with
  | O => [piece ++ s]
  | S fuel' =>
      if JS.startsWith sep s then
        piece :: splitFrom sep fuel' [] (drop (length sep) s)
      else
        match s with
        | [] => [piece]
        | c :: rest => splitFrom sep fuel' (piece ++ [c]) rest
        end
  end.

Definition split (sep s : jsstring) : list jsstring :=
  splitFrom sep (S (length s)) [] s.

(** No style of the chain finds its close sequence in what the styles before
    it have rendered, so that no replacement takes place. *)
Fixpoint undisturbed (out : jsstring) (chain : list Style) : bool :=
  match chain with
  | [] => true
  | s :: rest =>
      negb (JS.includes (close s) out) && undisturbed (applyStyle out s) rest
  end.

(** Every occurrence of [s.close] in [middle] has an occurrence of [s.open]
    somewhere behind it. *)
Fixpoint everyCloseReopened (s : Style) (middle : jsstring) : bool :=
  (if JS.startsWith (close s) middle
   then JS.includes (open s) (drop (length (close s)) middle)
   else true)
  && match middle with
     | [] => true
     | _ :: rest => everyCloseReopened s rest
     end.

(** Once the wrapper is cut off the rendering of [text] through the single
    style [s], every close sequence in the middle has an open sequence
    behind it. *)
Definition reopensEveryClose (s : Style) (text : jsstring) : Prop :=
  everyCloseReopened s (stripWrapper s (applyStyles text [s])) = true.

(** The open sequence of each style of the chain is found in [out] before
    the open sequence of the style chained after it. *)
Definition opensInChainOrder (chain : list Style) (out : jsstring) : Prop :=
  forall i si sj,
    chain !! i = Some si -> chain !! (S i) = Some sj ->
    exists a b,
      JS.indexOf (open si) out = Some a /\ JS.indexOf (open sj) out = Some b /\ a < b.

(** The three names the [get] trap answers before it looks at the tables. *)
Definition pluginNames : list jsstring :=
  [js "registerStyle"; js "registerDynamicStyle"; js "extend"].

(** The error [parseHex] throws, with the input it was given. *)
Definition InvalidColorFormat (hex : jsstring) : JSError :=
  Error (js "Invalid hex color: " ++ hex).

(** The six hexadecimal digits [parseHex] reads: a three-digit form with
    each digit doubled, a six-digit form as it is; nothing for any other
    string. *)
Definition hexDigits (h : jsstring) : option (list Z) :=
  match h with
  | [a; b; c] =>
      a' ← hexDigit a; b' ← hexDigit b; c' ← hexDigit c;
      Some [a'; a'; b'; b'; c'; c']
  | [a; b; c; d; e; f] =>
      a' ← hexDigit a; b' ← hexDigit b; c' ← hexDigit c;
      d' ← hexDigit d; e' ← hexDigit e; f' ← hexDigit f;
      Some [a'; b'; c'; d'; e'; f']
  | _ => None
  end.

(** The byte two hexadecimal digits denote, as a number. *)
Definition byte (hi lo : Z) : JSNumber := Finite (inject_Z (16 * hi + lo)).

(** [parseHex] in terms of digits: once the surrounding white space and one
    leading [#] are removed, three or six hexadecimal digits give the three
    bytes, and anything else is an error. *)
Definition parseHexSpec (hex : jsstring) : Outcome (JSNumber * JSNumber * JSNumber) :=
  match hexDigits (stripHash (trim hex)) with
  | Some [a; b; c; d; e; f] => Returns (byte a b, byte c d, byte e f)
  | _ => Throws (InvalidColorFormat hex)
  end.

(** The channel value the specification gives for a number: NaN is 0, the
    rest is floored and clamped into 0..255. *)
Definition channel (n : JSNumber) : Z :=
  match n with
  | NaN => 0
  | PosInfinity => 255
  | NegInfinity => 0
  | Finite q => Z.min 255 (Z.max 0 (Qfloor q))
  end.

(** A value of type number. *)
Definition isNumberValue (v : JSValue) : bool :=
  match v with VNumber _ => true | _ => false end.

(** The input is clamped into 0..255, and to 0 when it is not a number. *)
Definition clampsAsClaimed (v : JSValue) : Prop :=
  (exists z, clamp255 v = Returns (Finite (inject_Z z)) /\ (0 <= z <= 255)%Z)
  /\ (isNumberValue v = false -> clamp255 v = Returns (Finite 0)).

(** The inputs the specification lets [parseHex] accept: an optional
    leading [#] and then three or six hexadecimal digits. *)
Definition plainHexForm (hex : jsstring) : bool :=
  bool_decide (is_Some (hexDigits (stripHash hex))).

(** An input that is not of that form makes [parseHex] throw. *)
Definition raisesOutsidePlainForm (hex : jsstring) : Prop :=
  plainHexForm hex = false -> parseHex hex = Throws (InvalidColorFormat hex).

(** Coercion of a builder that has accumulated styles yields the
    accumulated open sequences followed by the accumulated close
    sequences. *)
Definition coercesToWrappers (w : World) (b : Builder) : Prop :=
  stylesOf w b <> [] ->
  callToPrimitive w b
  = concat (map open (stylesOf w b)) ++ concat (map close (rev (stylesOf w b))).

(** After [registerStyle(name, open, close)], access to [name] on the
    builder [b] yields a builder with the registered pair appended. *)
Definition resolvesToRegistered (w : World) (b : Builder)
    (name open close : jsstring) : Prop :=
  exists w' b',
    get (callRegisterStyle w name open close) b (PString name) = (w', Chained b')
    /\ stylesOf w' b' = stylesOf w b ++ [mkStyle open close].

(** Access by name from a builder, for chains of static styles such as
    [flu.bold.red]; a name that resolves to no style leaves the builder. *)
Definition chained (wb : World * Builder) (name : string) : World * Builder :=
  match get wb.1 wb.2 (PString (JS.ofString name)) with
  | (w', Chained b') => (w', b')
  | _ => wb
  end.

(** The root builder and some chains, for the examples. *)
Definition flu : World * Builder := createFlu.
Definition flu_bold : World * Builder := chained flu "bold".
Definition flu_bold_red : World * Builder := chained flu_bold "red".
Definition flu_reset : World * Builder := chained flu "reset".

(** A world in which a style is registered as [extend] and a factory as
    [registerStyle]. *)
Definition flu_shadowed : World :=
  callRegisterDynamicStyle
    (callRegisterStyle flu.1 (js "extend") (js "<") (js ">"))
    (js "registerStyle") rgb.

(** The built-in static style of a name. *)
Definition builtin (name : string) : Style :=
  default (mkStyle [] []) (styles createDefaultRegistry !! JS.ofString name).

(** The double that the literal [2.9] denotes. *)
Definition double_2_9 : Q := 6530219459687219 # 2251799813685248.

(** The integers a number holds exactly, which [`${n}`] prints digit by
    digit. *)
Definition safeInteger (n : Z) : Prop := (Z.abs n < 2 ^ 53)%Z.

(** What every entry of the built-in static table satisfies: both
    sequences are non-empty and free of dollar signs, and the open sequence
    is the close sequence for [reset] only. *)
Definition wellFormedBuiltin (entry : jsstring * Style) : bool :=
  negb (length (open entry.2) =? 0)
  && negb (length (close entry.2) =? 0)
  && dollarFree (close entry.2 ++ open entry.2)
  && Bool.eqb (bool_decide (open entry.2 = close entry.2))
              (bool_decide (entry.1 = js "reset")).

(** ** Strings: basic facts *)

Lemma startsWith_app (p s : jsstring) : JS.startsWith p (p ++ s) = true.
Proof.
  induction p as [|a p IH]; simpl; [done|].
  by rewrite N.eqb_refl.
Qed.

Lemma startsWith_true (p s : jsstring) :
  JS.startsWith p s = true -> s = p ++ drop (length p) s.
Proof.
  revert s; induction p as [|a p IH]; intros [|b s]; simpl; try done.
  destruct (N.eqb_spec a b) as [->|]; [|done].
  intros H. f_equal. by apply IH.
Qed.

Lemma startsWith_nil_l (s : jsstring) : JS.startsWith [] s = true.
Proof. by destruct s. Qed.

Lemma includes_false_head (p s : jsstring) :
  JS.includes p s = false -> JS.startsWith p s = false.
Proof. destruct s; simpl; intros H; by apply orb_false_iff in H as [? _]. Qed.

Lemma includes_false_tail (p : jsstring) c (s : jsstring) :
  JS.includes p (c :: s) = false -> JS.includes p s = false.
Proof. simpl. intros H. by apply orb_false_iff in H as [_ ?]. Qed.

Lemma join_cons (sep x : jsstring) (rest : list jsstring) :
  rest <> [] -> JS.join sep (x :: rest) = x ++ sep ++ JS.join sep rest.
Proof. by destruct rest. Qed.

Lemma slice_middle (a t b : jsstring) :
  JS.slice (length a) (length (a ++ t ++ b) - length b) (a ++ t ++ b) = t.
Proof.
  unfold JS.slice. rewrite drop_app_length.
  rewrite !length_app.
  replace (length a + (length t + length b) - length b - length a) with (length t) by lia.
  by rewrite take_app_length.
Qed.

(** ** The replacement of [applyStyles] *)

Lemma syntaxCharacter_backslash : syntaxCharacter BACKSLASH = true.
Proof. reflexivity. Qed.

(** The escaped source of a string denotes that string. *)
Lemma parsePattern_escapeRegExp (s : jsstring) :
  parsePattern (escapeRegExp s) = Some s.
Proof.
  induction s as [|c s IH]; [done|].
  unfold escapeRegExp in *. simpl.
  destruct (syntaxCharacter c) eqn:Hc; simpl.
  - rewrite Hc. by rewrite IH.
  - destruct (N.eqb_spec c BACKSLASH) as [->|_].
    + by rewrite syntaxCharacter_backslash in Hc.
    + rewrite Hc. by rewrite IH.
Qed.

Lemma replace_g_escaped (lit template subject : jsstring) :
  replace_g (escapeRegExp lit) template subject
  = replaceFrom lit template (S (length subject)) [] subject.
Proof. unfold replace_g. by rewrite parsePattern_escapeRegExp. Qed.

Lemma dollarFree_cons c (t : jsstring) :
  dollarFree (c :: t) = true -> N.eqb c DOLLAR = false /\ dollarFree t = true.
Proof.
  unfold dollarFree. simpl. rewrite negb_orb, andb_true_iff.
  intros [Hc Ht]. split; [|done].
  rewrite N.eqb_sym. by apply negb_true_iff.
Qed.

(** Without a dollar sign the template is inserted as it is. *)
Lemma getSubstitution_dollarFree (matched before after template : jsstring) :
  dollarFree template = true ->
  getSubstitution matched before after template = template.
Proof.
  induction template as [|c t IH]; [done|].
  intros [Hc Ht]%dollarFree_cons. simpl. rewrite Hc. f_equal. by apply IH.
Qed.

(** A subject in which the pattern does not occur is returned as it is. *)
Lemma replaceFrom_absent (lit template : jsstring) (fuel : nat)
    (before subject : jsstring) :
  JS.includes lit subject = false ->
  replaceFrom lit template fuel before subject = subject.
Proof.
  revert before subject. induction fuel as [|fuel IH]; intros before subject H; [done|].
  simpl. rewrite (includes_false_head _ _ H).
  destruct subject as [|c rest]; [done|].
  f_equal. apply IH. by eapply includes_false_tail.
Qed.

Lemma splitFrom_nonempty (sep : jsstring) (fuel : nat) (piece s : jsstring) :
  splitFrom sep fuel piece s <> [].
Proof.
  revert piece s. induction fuel as [|fuel IH]; intros piece s; simpl; [done|].
  destruct (JS.startsWith sep s); [done|].
  destruct s; [done|]. apply IH.
Qed.

Lemma startsWith_shorter (sep s : jsstring) :
  sep <> [] -> JS.startsWith sep s = true -> length (drop (length sep) s) < length s.
Proof.
  intros Hsep H. apply startsWith_true in H.
  rewrite H at 2. rewrite length_app.
  destruct sep; [done|]. simpl. lia.
Qed.

(** The replacement puts the template between the pieces of the subject. *)
Lemma replaceFrom_join (lit template : jsstring) (fuel : nat)
    (before piece subject : jsstring) :
  lit <> [] -> dollarFree template = true -> length subject < fuel ->
  piece ++ replaceFrom lit template fuel before subject
  = JS.join template (splitFrom lit fuel piece subject).
Proof.
  intros Hlit Ht. revert before piece subject.
  induction fuel as [|fuel IH]; intros before piece subject Hlen; [lia|].
  simpl. destruct (JS.startsWith lit subject) eqn:Hst.
  - rewrite join_cons by apply splitFrom_nonempty.
    rewrite getSubstitution_dollarFree by done.
    destruct lit as [|a lit]; [done|].
    rewrite <- (IH (before ++ a :: lit) []); [done|].
    pose proof (startsWith_shorter (a :: lit) subject Hlit Hst). lia.
  - destruct subject as [|c rest]; simpl.
    + by rewrite app_nil_r.
    + rewrite <- (IH (before ++ [c]) (piece ++ [c]) rest) by (simpl in Hlen; lia).
      by rewrite <- app_assoc.
Qed.

(** Joining the pieces with the separator gives the subject back. *)
Lemma splitFrom_join (sep : jsstring) (fuel : nat) (piece s : jsstring) :
  sep <> [] -> length s < fuel ->
  JS.join sep (splitFrom sep fuel piece s) = piece ++ s.
Proof.
  intros Hsep. revert piece s.
  induction fuel as [|fuel IH]; intros piece s Hlen; [lia|].
  simpl. destruct (JS.startsWith sep s) eqn:Hst.
  - rewrite join_cons by apply splitFrom_nonempty.
    rewrite IH by (pose proof (startsWith_shorter sep s Hsep Hst); lia).
    simpl. by rewrite <- (startsWith_true _ _ Hst).
  - destruct s as [|c rest]; simpl; [by rewrite app_nil_r|].
    rewrite IH by (simpl in Hlen; lia). by rewrite <- app_assoc.
Qed.

(** With the empty pattern the template goes in front of every code unit
    and behind the last one. *)
Lemma replaceFrom_empty (template : jsstring) (fuel : nat)
    (before subject : jsstring) :
  dollarFree template = true -> length subject < fuel ->
  replaceFrom [] template fuel before subject
  = flat_map (fun c => template ++ [c]) subject ++ template.
Proof.
  intros Ht. revert before subject.
  induction fuel as [|fuel IH]; intros before subject Hlen; [lia|].
  simpl. rewrite getSubstitution_dollarFree by done.
  destruct subject as [|c rest]; simpl; [done|].
  rewrite IH by (simpl in Hlen; lia).
  by rewrite <- !app_assoc.
Qed.

Lemma startsWith_app_l (p a b : jsstring) :
  JS.startsWith p a = true -> JS.startsWith p (a ++ b) = true.
Proof.
  intros H. rewrite (startsWith_true _ _ H), <- app_assoc. apply startsWith_app.
Qed.

Lemma startsWith_nil_r (p : jsstring) : p <> [] -> JS.startsWith p [] = false.
Proof. by destruct p. Qed.

(** [includes] fails exactly when no position of the string starts an
    occurrence. *)
Lemma includes_false_iff (p s : jsstring) :
  JS.includes p s = false <->
  forall i, i <= length s -> JS.startsWith p (drop i s) = false.
Proof.
  induction s as [|c s IH].
  - simpl. rewrite orb_false_r. split.
    + intros H i _. by rewrite drop_nil.
    + intros H. apply (H 0). lia.
  - change (JS.includes p (c :: s))
      with (JS.startsWith p (c :: s) || JS.includes p s).
    rewrite orb_false_iff, IH. split.
    + intros [H0 H] [|i] Hi; [done|]. simpl. apply H. simpl in Hi. lia.
    + intros H. split; [apply (H 0); lia|].
      intros i Hi. apply (H (S i)). simpl. lia.
Qed.

(** A piece that no occurrence of the separator starts in holds none. *)
Lemma piece_absent (sep piece s : jsstring) :
  sep <> [] ->
  (forall i, i < length piece -> JS.startsWith sep (drop i (piece ++ s)) = false) ->
  JS.includes sep piece = false.
Proof.
  intros Hsep H. apply includes_false_iff. intros i Hi.
  destruct (decide (i = length piece)) as [->|Hne].
  - rewrite drop_all. by apply startsWith_nil_r.
  - destruct (JS.startsWith sep (drop i piece)) eqn:E; [|done].
    apply (startsWith_app_l _ _ s) in E.
    rewrite <- drop_app_le in E by lia.
    rewrite H in E by lia. done.
Qed.

(** The pieces of a split hold no occurrence of the separator. *)
Lemma splitFrom_pieces (sep : jsstring) (fuel : nat) (piece s : jsstring) :
  sep <> [] -> length s < fuel ->
  (forall i, i < length piece -> JS.startsWith sep (drop i (piece ++ s)) = false) ->
  Forall (fun x => JS.includes sep x = false) (splitFrom sep fuel piece s).
Proof.
  intros Hsep. revert piece s.
  induction fuel as [|fuel IH]; intros piece s Hlen Hinv; [lia|].
  simpl. destruct (JS.startsWith sep s) eqn:Hst.
  - constructor; [by eapply piece_absent|].
    apply IH.
    + pose proof (startsWith_shorter sep s Hsep Hst). lia.
    + simpl. intros i Hi. lia.
  - destruct s as [|c rest].
    + constructor; [by eapply piece_absent|constructor].
    + apply IH; [simpl in Hlen; lia|].
      intros i Hi. rewrite <- app_assoc. simpl.
      rewrite length_app in Hi. simpl in Hi.
      destruct (decide (i = length piece)) as [->|Hne].
      * by rewrite drop_app_length.
      * apply Hinv. lia.
Qed.

(** The scan ends before the fuel does: any two amounts of fuel above the
    length of the subject give the same result. *)
Lemma replaceFrom_fuel (lit template : jsstring) (fuel fuel' : nat)
    (before subject : jsstring) :
  length subject < fuel -> length subject < fuel' ->
  replaceFrom lit template fuel before subject
  = replaceFrom lit template fuel' before subject.
Proof.
  revert fuel' before subject.
  induction fuel as [|fuel IH]; intros fuel' before subject H H'; [lia|].
  destruct fuel' as [|fuel']; [lia|]. simpl.
  destruct (JS.startsWith lit subject) eqn:Hst.
  - destruct lit as [|a lit].
    + destruct subject as [|c rest]; [done|].
      f_equal. f_equal. apply IH; simpl in *; lia.
    + f_equal. pose proof (startsWith_shorter (a :: lit) subject) as Hlt.
      apply IH; specialize (Hlt ltac:(done) Hst); lia.
  - destruct subject as [|c rest]; [done|].
    f_equal. apply IH; simpl in *; lia.
Qed.

(** ** [applyStyles] *)

Lemma applyStyles_fold (text : jsstring) (chain : list Style) :
  text <> [] -> applyStyles text chain = fold_left applyStyle chain text.
Proof. by destruct text, chain. Qed.

Lemma applyStyles_snoc (text : jsstring) (chain : list Style) (s : Style) :
  text <> [] ->
  applyStyles text (chain ++ [s]) = applyStyle (applyStyles text chain) s.
Proof.
  intros H. rewrite !applyStyles_fold by done. by rewrite fold_left_app.
Qed.

Lemma applyStyle_absent (out : jsstring) (s : Style) :
  JS.includes (close s) out = false ->
  applyStyle out s = open s ++ out ++ close s.
Proof.
  intros H. unfold applyStyle. rewrite replace_g_escaped.
  by rewrite replaceFrom_absent.
Qed.

(** An undisturbed chain wraps the text layer by layer. *)
Lemma fold_undisturbed (chain : list Style) (out : jsstring) :
  undisturbed out chain = true ->
  fold_left applyStyle chain out
  = concat (map open (rev chain)) ++ out ++ concat (map close chain).
Proof.
  revert out. induction chain as [|s rest IH]; intros out H; simpl.
  - by rewrite app_nil_r.
  - simpl in H. apply andb_true_iff in H as [Hs Hrest].
    apply negb_true_iff in Hs.
    rewrite IH by done. rewrite applyStyle_absent by done.
    rewrite map_app, concat_app. simpl.
    by rewrite app_nil_r, <- !app_assoc.
Qed.

(** C9. Rendering through an empty style list returns the text unchanged,
    and rendering the empty text through any style list returns the empty
    text: no escape sequence is emitted in either case. *)
Theorem applyStyles_nothing_to_style (text : jsstring) (chain : list Style) :
  applyStyles text [] = text /\ applyStyles [] chain = [].
Proof. split; [done|by destruct chain]. Qed.

(** C6. Round trip: when the close sequence of a style pair does not occur
    in a text, rendering the text through that single style and cutting the
    open prefix and the close suffix off gives the text back; for a
    non-empty text the rendering is the text between the two sequences. *)
Theorem roundtrip_single_style (p : Style) (t : jsstring) :
  JS.includes (close p) t = false ->
  stripWrapper p (applyStyles t [p]) = t
  /\ (t <> [] -> applyStyles t [p] = open p ++ t ++ close p).
Proof.
  intros H. destruct t as [|c t].
  - split; [|done]. change (applyStyles [] [p]) with (@nil N).
    unfold stripWrapper, JS.slice. by rewrite drop_nil, take_nil.
  - assert (E : applyStyles (c :: t) [p] = open p ++ (c :: t) ++ close p).
    { rewrite applyStyles_fold by done. simpl. by apply applyStyle_absent. }
    split; [|done]. rewrite E. apply slice_middle.
Qed.

Lemma roundtrip_single_style_witness :
  JS.includes (close (builtin "red")) (js "hello") = false
  /\ stripWrapper (builtin "red") (applyStyles (js "hello") [builtin "red"]) = js "hello".
Proof.
  split; [reflexivity|].
  apply (roundtrip_single_style (builtin "red") (js "hello")). reflexivity.
Defined.

(** C1 (amended). Invoking a builder with a non-empty joined text renders
    the text through the chain so that the last-chained style is the
    outermost wrapper: its open sequence starts the output, its close
    sequence ends it, and in between is what the replacement of the
    compositor makes of the rendering of the chain before it.  When the
    sequences of the last style hold no dollar sign and its close sequence
    is not empty, that middle is the earlier rendering with the open
    sequence put behind each close sequence the scan finds.  When no style
    finds its close sequence in what was rendered before it, the output is
    the open sequences in reverse chain order, the text, and the close
    sequences in chain order. *)
Theorem last_chained_is_outermost (w : World) (b : Builder)
    (argArray : list jsstring) (chain : list Style) (s : Style) :
  stylesOf w b = chain ++ [s] ->
  joinArgs argArray <> [] ->
  apply w b argArray
  = open s
    ++ replace_g (escapeRegExp (close s)) (close s ++ open s)
         (applyStyles (joinArgs argArray) chain)
    ++ close s
  /\ (undisturbed (joinArgs argArray) (chain ++ [s]) = true ->
      apply w b argArray
      = concat (map open (rev (chain ++ [s])))
        ++ joinArgs argArray
        ++ concat (map close (chain ++ [s])))
  /\ (dollarFree (close s ++ open s) = true -> close s <> [] ->
      apply w b argArray
      = open s
        ++ JS.join (close s ++ open s)
             (split (close s) (applyStyles (joinArgs argArray) chain))
        ++ close s
      /\ applyStyles (joinArgs argArray) chain
         = JS.join (close s) (split (close s) (applyStyles (joinArgs argArray) chain))).
Proof.
  intros Hb Ht. unfold apply. rewrite Hb. split; [|split].
  - by rewrite applyStyles_snoc.
  - intros Hu. rewrite applyStyles_fold by done. by apply fold_undisturbed.
  - intros Hd Hc. rewrite applyStyles_snoc by done. unfold applyStyle, split.
    rewrite replace_g_escaped. split.
    + by rewrite <- (replaceFrom_join _ _ _ [] []) by (done || lia).
    + by rewrite splitFrom_join by (done || lia).
Qed.

Lemma last_chained_is_outermost_witness :
  stylesOf flu_bold_red.1 flu_bold_red.2 = [builtin "bold"] ++ [builtin "red"]
  /\ joinArgs [js "x"] <> []
  /\ apply flu_bold_red.1 flu_bold_red.2 [js "x"]
     = code 31 ++ code 1 ++ js "x" ++ code 22 ++ code 39.
Proof.
  split; [reflexivity|]. split; [discriminate|].
  refine (proj1 (proj2 (last_chained_is_outermost flu_bold_red.1 flu_bold_red.2
                          [js "x"] [builtin "bold"] (builtin "red") _ _)) _).
  - reflexivity.
  - discriminate.
  - reflexivity.
Defined.

(** C1, as stated, fails: in [flu.bold.red("x")] the open sequence of
    [red], chained second, comes first. *)
Lemma first_chained_is_not_outermost :
  ~ opensInChainOrder (stylesOf flu_bold_red.1 flu_bold_red.2)
      (apply flu_bold_red.1 flu_bold_red.2 [js "x"]).
Proof.
  intros H.
  destruct (H 0 (builtin "bold") (builtin "red")) as (a & b & Ha & Hb & Hlt);
    [reflexivity..|].
  vm_compute in Ha, Hb.
  injection Ha as <-. injection Hb as <-. lia.
Qed.

(** C2 (amended). For a style pair whose sequences hold no dollar sign, one
    step of the compositor cuts the text at the occurrences of the close
    sequence, found from left to right, and joins the pieces again with the
    close sequence followed by the open sequence, then puts the open
    sequence in front and the close sequence behind; so each occurrence the
    scan has found is directly followed by the open sequence.  With an empty
    close sequence the open sequence goes in front of every code unit and
    behind the last.  On a non-empty text, rendering through the single
    style is that step. *)
Theorem applyStyle_reopens (s : Style) (out : jsstring) :
  dollarFree (close s ++ open s) = true ->
  (close s <> [] ->
     out = JS.join (close s) (split (close s) out)
     /\ Forall (fun x => JS.includes (close s) x = false) (split (close s) out)
     /\ applyStyle out s
        = open s ++ JS.join (close s ++ open s) (split (close s) out) ++ close s)
  /\ (close s = [] ->
      applyStyle out s
      = open s ++ (flat_map (fun c => open s ++ [c]) out ++ open s) ++ close s)
  /\ (out <> [] -> applyStyles out [s] = applyStyle out s).
Proof.
  intros Hd. split; [|split].
  - intros Hc. unfold split. split; [|split].
    + by rewrite splitFrom_join by (done || lia).
    + apply splitFrom_pieces; [done|lia|]. simpl. intros i Hi. lia.
    + unfold applyStyle. rewrite replace_g_escaped.
      by rewrite <- (replaceFrom_join _ _ _ [] []) by (done || lia).
  - intros Hc. unfold applyStyle. rewrite replace_g_escaped.
    rewrite Hc in Hd |- *. by rewrite replaceFrom_empty by (done || lia).
  - intros Ho. by rewrite applyStyles_fold.
Qed.

Lemma applyStyle_reopens_witness :
  dollarFree (close (builtin "bold") ++ open (builtin "bold")) = true
  /\ close (builtin "bold") <> []
  /\ applyStyle (js "a" ++ code 22 ++ js "b") (builtin "bold")
     = code 1 ++ js "a" ++ code 22 ++ code 1 ++ js "b" ++ code 22.
Proof.
  split; [reflexivity|]. split; [discriminate|].
  refine (proj2 (proj2 (proj1 (applyStyle_reopens (builtin "bold")
                                 (js "a" ++ code 22 ++ js "b") _) _))).
  - reflexivity.
  - discriminate.
Defined.

(** C2, as stated, fails: [reset] opens and closes with the same sequence,
    and in [flu.reset(flu.reset("b"))] the middle of the output ends with a
    close sequence that no open sequence follows. *)
Lemma reset_close_is_not_reopened :
  ~ reopensEveryClose (builtin "reset") (apply flu_reset.1 flu_reset.2 [js "b"]).
Proof. intros H. vm_compute in H. discriminate H. Qed.

(** Nesting within one family: in [flu.red("a" + flu.blue("b") + "c")] red
    is opened again behind the close sequence of blue. *)
Example nested_same_family :
  let red := chained flu "red" in
  let blue := chained flu "blue" in
  apply red.1 red.2 [js "a" ++ apply blue.1 blue.2 [js "b"] ++ js "c"]
  = code 31 ++ js "a" ++ code 34 ++ js "b" ++ code 39 ++ code 31 ++ js "c"
    ++ code 39.
Proof. reflexivity. Qed.

(** A dollar sign in a registered sequence is read as a replacement pattern:
    here [$&] in the open sequence is replaced by the close sequence that
    was matched. *)
Example dollar_pattern_in_open :
  applyStyle (js "a|b") (mkStyle (js "<$&>") (js "|")) = js "<$&>a|<|>b|".
Proof. reflexivity. Qed.

(** ** The builder *)

Lemma allocate_spec (w : World) (elems : list Style) :
  ((allocate w elems).2 ∉ dom (arrays w))
  /\ registry (allocate w elems).1 = registry w
  /\ arrays (allocate w elems).1 !!! (allocate w elems).2 = elems
  /\ forall l', l' ∈ dom (arrays w) ->
       arrays (allocate w elems).1 !! l' = arrays w !! l'.
Proof.
  unfold allocate. simpl.
  pose proof (is_fresh (dom (arrays w))) as Hfresh.
  split; [done|]. split; [done|]. split.
  - by rewrite lookup_total_insert_eq.
  - intros l' Hl'. apply lookup_insert_ne. intros <-. done.
Qed.

(** Access to a name of the static table, other than the three plugin
    names, makes a new array and a builder on it. *)
Lemma get_static (w : World) (b : Builder) (name : jsstring) (st : Style) :
  name ∉ pluginNames ->
  styles (registry w) !! name = Some st ->
  get w b (PString name)
  = ((allocate w (stylesOf w b ++ [st])).1,
     Chained (create (allocate w (stylesOf w b ++ [st])).2)).
Proof.
  intros Hn Hst. unfold get, pluginNames in *.
  rewrite !not_elem_of_cons in Hn. destruct Hn as (H1 & H2 & H3 & _).
  rewrite !decide_False by congruence.
  by rewrite Hst.
Qed.

(** C8. Builder immutability: a property access that resolves to a style
    returns a new builder, on a new array that holds the styles of the
    parent followed by the resolved pair; the array of the parent, every
    other array and the registry are as they were. *)
Theorem get_chains_without_mutation (w : World) (b : Builder)
    (name : jsstring) (st : Style) :
  name ∉ pluginNames ->
  styles (registry w) !! name = Some st ->
  __styles b ∈ dom (arrays w) ->
  exists w' b',
    get w b (PString name) = (w', Chained b')
    /\ stylesOf w' b' = stylesOf w b ++ [st]
    /\ stylesOf w' b = stylesOf w b
    /\ __styles b' <> __styles b
    /\ (forall l, l ∈ dom (arrays w) -> arrays w' !! l = arrays w !! l)
    /\ registry w' = registry w.
Proof.
  intros Hn Hst Hb.
  pose proof (allocate_spec w (stylesOf w b ++ [st])) as Ha.
  rewrite (get_static w b name st Hn Hst).
  destruct (allocate w (stylesOf w b ++ [st])) as [w' l].
  destruct Ha as (Hl & Hreg & Hnew & Hold). simpl.
  exists w', (create l). split; [done|]. split; [done|]. split.
  - unfold stylesOf. by rewrite !lookup_total_alt, Hold.
  - split; [|done]. simpl. intros ->. done.
Qed.

Lemma get_chains_without_mutation_witness :
  (js "red" ∉ pluginNames)
  /\ styles (registry flu_bold.1) !! js "red" = Some (builtin "red")
  /\ (__styles flu_bold.2 ∈ dom (arrays flu_bold.1))
  /\ exists w' b',
       get flu_bold.1 flu_bold.2 (PString (js "red")) = (w', Chained b')
       /\ stylesOf w' b' = stylesOf flu_bold.1 flu_bold.2 ++ [builtin "red"]
       /\ stylesOf w' flu_bold.2 = stylesOf flu_bold.1 flu_bold.2
       /\ __styles b' <> __styles flu_bold.2
       /\ (forall l, l ∈ dom (arrays flu_bold.1) ->
           arrays w' !! l = arrays flu_bold.1 !! l)
       /\ registry w' = registry flu_bold.1.
Proof.
  assert (H1 : js "red" ∉ pluginNames).
  { unfold pluginNames. rewrite !not_elem_of_cons. repeat split; try discriminate.
    apply not_elem_of_nil. }
  assert (H2 : styles (registry flu_bold.1) !! js "red" = Some (builtin "red"))
    by reflexivity.
  assert (H3 : __styles flu_bold.2 ∈ dom (arrays flu_bold.1)).
  { apply elem_of_dom. exists [builtin "bold"]. reflexivity. }
  split; [exact H1|]. split; [exact H2|]. split; [exact H3|].
  exact (get_chains_without_mutation flu_bold.1 flu_bold.2 (js "red")
           (builtin "red") H1 H2 H3).
Defined.

(** C5 (amended). Registry mutation is observable at once: after
    [registerStyle(name, open, close)], for a name other than
    [registerStyle], [registerDynamicStyle] and [extend], access to that
    name on a builder created before the call returns a new builder with
    the registered pair appended to the styles of that builder. *)
Theorem registered_style_resolves (w : World) (b : Builder)
    (name open close : jsstring) :
  name ∉ pluginNames ->
  resolvesToRegistered w b name open close.
Proof.
  intros Hn. unfold resolvesToRegistered.
  set (w1 := callRegisterStyle w name open close).
  assert (Hst : styles (registry w1) !! name = Some (mkStyle open close))
    by apply lookup_insert_eq.
  rewrite (get_static w1 b name _ Hn Hst).
  pose proof (allocate_spec w1 (stylesOf w1 b ++ [mkStyle open close])) as Ha.
  destruct (allocate w1 (stylesOf w1 b ++ [mkStyle open close])) as [w' l].
  destruct Ha as (_ & _ & Hnew & _). simpl.
  exists w', (create l). split; [done|]. exact Hnew.
Qed.

Lemma registered_style_resolves_witness :
  (js "frame" ∉ pluginNames)
  /\ resolvesToRegistered flu_bold.1 flu_bold.2 (js "frame") (code 51) (code 54).
Proof.
  assert (H1 : js "frame" ∉ pluginNames).
  { unfold pluginNames. rewrite !not_elem_of_cons. repeat split; try discriminate.
    apply not_elem_of_nil. }
  split; [exact H1|].
  exact (registered_style_resolves flu_bold.1 flu_bold.2 (js "frame")
           (code 51) (code 54) H1).
Defined.

(** C5, as stated, fails for the name [extend]: after a style is registered
    under it, access still returns the plugin function. *)
Lemma registered_extend_does_not_resolve :
  ~ resolvesToRegistered flu.1 flu.2 (js "extend") (js "<") (js ">").
Proof. intros (w' & b' & H & _). discriminate H. Qed.

(** C10. The three plugin names shadow the registry: in every world, and so
    also after a style or a factory has been registered under one of them,
    access to [registerStyle], [registerDynamicStyle] and [extend] on any
    builder returns the plugin function of that name, leaves the world as it
    is, and never returns a builder. *)
Theorem plugin_names_shadow_registry (w : World) (b : Builder) :
  get w b (PString (js "registerStyle")) = (w, RegisterStyle)
  /\ get w b (PString (js "registerDynamicStyle")) = (w, RegisterDynamicStyle)
  /\ get w b (PString (js "extend")) = (w, Extend)
  /\ forall name w' b',
       name ∈ pluginNames -> get w b (PString name) <> (w', Chained b').
Proof.
  split; [done|]. split; [done|]. split; [done|].
  intros name w' b' Hn. unfold pluginNames in Hn.
  rewrite !elem_of_cons in Hn.
  destruct Hn as [->|[->|[->|Hn]]]; [done..|].
  by apply elem_of_nil in Hn.
Qed.

Lemma plugin_names_shadow_registry_witness :
  (js "extend" ∈ pluginNames)
  /\ styles (registry flu_shadowed) !! js "extend" = Some (mkStyle (js "<") (js ">"))
  /\ is_Some (dynamics (registry flu_shadowed) !! js "registerStyle")
  /\ get flu_shadowed flu.2 (PString (js "extend")) = (flu_shadowed, Extend)
  /\ forall w' b',
       get flu_shadowed flu.2 (PString (js "extend")) <> (w', Chained b').
Proof.
  assert (H1 : js "extend" ∈ pluginNames).
  { unfold pluginNames. rewrite !elem_of_cons. right. right. by left. }
  split; [exact H1|]. split; [reflexivity|]. split; [by eexists|].
  split.
  - exact (proj1 (proj2 (proj2 (plugin_names_shadow_registry flu_shadowed flu.2)))).
  - intros w' b'.
    exact (proj2 (proj2 (proj2 (plugin_names_shadow_registry flu_shadowed flu.2)))
             (js "extend") w' b' H1).
Defined.

(** C3 (amended). Coercing a builder to a primitive asks the [get] trap for
    [Symbol.toPrimitive] and calls what it returns, which renders the empty
    text through the accumulated styles; the result is the empty string,
    whatever styles the builder has accumulated, and no open or close
    sequence is emitted. *)
Theorem coercion_renders_empty (w : World) (b : Builder) :
  get w b (PSymbol Symbol_toPrimitive) = (w, ToPrimitive b)
  /\ callToPrimitive w b = applyStyles [] (stylesOf w b)
  /\ callToPrimitive w b = [].
Proof.
  split; [done|]. split; [done|].
  unfold callToPrimitive. by destruct (stylesOf w b).
Qed.

(** C3, as stated, fails: [flu.bold] has accumulated one style, and its
    coercion is the empty string, not the open and close sequences. *)
Lemma coercion_emits_no_wrappers : ~ coercesToWrappers flu_bold.1 flu_bold.2.
Proof.
  intros H. assert (Hs : stylesOf flu_bold.1 flu_bold.2 <> []).
  { vm_compute. discriminate. }
  specialize (H Hs). vm_compute in H. discriminate H.
Qed.

(** ** The colour helpers *)

Lemma hexDigit_range (c : N) (v : Z) :
  hexDigit c = Some v ->
  ((48 <= c <= 57) \/ (97 <= c <= 102) \/ (65 <= c <= 70))%N.
Proof.
  unfold hexDigit.
  destruct (N.leb_spec 48 c), (N.leb_spec c 57); simpl; try lia;
    destruct (N.leb_spec 97 c), (N.leb_spec c 102); simpl; try lia;
    destruct (N.leb_spec 65 c), (N.leb_spec c 70); simpl; try lia; done.
Qed.

Lemma hexDigit_class (c : N) :
  isHexClass c = match hexDigit c with Some _ => true | None => false end.
Proof.
  unfold isHexClass, hexDigit.
  destruct (48 <=? c)%N, (c <=? 57)%N, (97 <=? c)%N, (c <=? 102)%N,
    (65 <=? c)%N, (c <=? 70)%N; reflexivity.
Qed.

Ltac decide_units c :=
  repeat match goal with
    | |- context [N.eqb c ?k] => rewrite (proj2 (N.eqb_neq c k)) by lia
    | |- context [N.leb ?k c] => rewrite (proj2 (N.leb_gt k c)) by lia
    end.

(** A hexadecimal digit is neither white space, nor a sign, nor the [x] of
    a [0x] prefix. *)
Lemma hexDigit_plain (c : N) (v : Z) :
  hexDigit c = Some v ->
  isWhiteSpace c = false
  /\ N.eqb c 45 = false /\ N.eqb c 43 = false
  /\ N.eqb c 120 = false /\ N.eqb c 88 = false.
Proof.
  intros H%hexDigit_range. unfold isWhiteSpace. simpl.
  repeat split; decide_units c; reflexivity.
Qed.

(** [parseInt] of two hexadecimal digits is the byte they denote. *)
Lemma parseInt16_two (x y : N) (vx vy : Z) :
  hexDigit x = Some vx -> hexDigit y = Some vy ->
  parseInt16 [x; y] = byte vx vy.
Proof.
  intros Hx Hy.
  destruct (hexDigit_plain x vx Hx) as (Hw & Hm & Hp & _).
  destruct (hexDigit_plain y vy Hy) as (_ & _ & _ & Hl & Hu).
  unfold parseInt16, byte. simpl. rewrite Hw, Hm, Hp, Hl, Hu.
  rewrite andb_false_r. simpl. rewrite Hx, Hy. simpl.
  f_equal. f_equal. lia.
Qed.

(** [parseHex] reads digits as [parseHexSpec] describes. *)
Lemma parseHex_refines (hex : jsstring) : parseHex hex = parseHexSpec hex.
Proof.
  unfold parseHex, parseHexSpec, hasNonHex.
  generalize (stripHash (trim hex)). intros h.
  destruct h as [|a [|b [|c [|d [|e [|f [|g rest]]]]]]]; try reflexivity.
  - simpl. rewrite !hexDigit_class.
    destruct (hexDigit a) eqn:Ha; simpl; [|reflexivity].
    destruct (hexDigit b) eqn:Hb; simpl; [|reflexivity].
    destruct (hexDigit c) eqn:Hc; simpl; [|reflexivity].
    unfold JS.slice. simpl.
    by rewrite (parseInt16_two a a _ _ Ha Ha), (parseInt16_two b b _ _ Hb Hb),
      (parseInt16_two c c _ _ Hc Hc).
  - simpl. rewrite !hexDigit_class.
    destruct (hexDigit a) eqn:Ha; simpl; [|reflexivity].
    destruct (hexDigit b) eqn:Hb; simpl; [|reflexivity].
    destruct (hexDigit c) eqn:Hc; simpl; [|reflexivity].
    destruct (hexDigit d) eqn:Hd; simpl; [|reflexivity].
    destruct (hexDigit e) eqn:He; simpl; [|reflexivity].
    destruct (hexDigit f) eqn:Hf; simpl; [|reflexivity].
    unfold JS.slice. simpl.
    by rewrite (parseInt16_two a b _ _ Ha Hb), (parseInt16_two c d _ _ Hc Hd),
      (parseInt16_two e f _ _ He Hf).
Qed.

(** What a factory throws passes through the dynamic accessor. *)
Lemma callDynamicAccessor_throws (w : World) (parent : Builder)
    (prop : jsstring) (factory : StyleFactory) (args : list JSValue) (e : JSError) :
  dynamics (registry w) !! prop = Some factory ->
  factory args = Throws e ->
  callDynamicAccessor w parent prop args = Throws e.
Proof.
  intros Hf He. unfold callDynamicAccessor, StyleFactory in *.
  by rewrite Hf, He.
Qed.

(** C4 (amended). [parseHex] first removes the white space around its
    input and then one leading [#]; what is left must be three or six
    hexadecimal digits of either case, a three-digit form standing for the
    six digits with each one doubled, and gives the three bytes; so
    [parseHex("#fff")] and [parseHex("#ffffff")] are both (255,255,255).
    Every other input, such as ["12g"] and ["1234"], raises the error, which
    carries the input as it was given; the [hex] and [bgHex] factories do
    not catch it, and neither does the dynamic accessor that calls them. *)
Theorem parseHex_three_or_six_digits (hex : jsstring) :
  parseHex hex = parseHexSpec hex
  /\ parseHex (js "#fff") = Returns (Finite 255, Finite 255, Finite 255)
  /\ parseHex (js "#ffffff") = Returns (Finite 255, Finite 255, Finite 255)
  /\ parseHex (js "12g") = Throws (InvalidColorFormat (js "12g"))
  /\ parseHex (js "1234") = Throws (InvalidColorFormat (js "1234"))
  /\ (forall (w : World) (parent : Builder) (prop : jsstring) (openBase : Z)
             (asNumber : JSNumber) (e : JSError),
        dynamics (registry w) !! prop = Some (hexWith openBase) ->
        parseHex hex = Throws e ->
        hexWith openBase [VString hex asNumber] = Throws e
        /\ callDynamicAccessor w parent prop [VString hex asNumber] = Throws e).
Proof.
  split; [apply parseHex_refines|]. do 4 (split; [reflexivity|]).
  intros w parent prop openBase asNumber e Hf He.
  assert (Hx : hexWith openBase [VString hex asNumber] = Throws e).
  { unfold hexWith. simpl. by rewrite He. }
  split; [done|]. by eapply callDynamicAccessor_throws.
Qed.

Lemma parseHex_three_or_six_digits_witness :
  dynamics (registry flu.1) !! js "hex" = Some (hexWith 38)
  /\ parseHex (js "12g") = Throws (InvalidColorFormat (js "12g"))
  /\ callDynamicAccessor flu.1 flu.2 (js "hex") [VString (js "12g") NaN]
     = Throws (InvalidColorFormat (js "12g")).
Proof.
  split; [reflexivity|]. split; [reflexivity|].
  refine (proj2 (proj2 (proj2 (proj2 (proj2 (proj2
            (parseHex_three_or_six_digits (js "12g"))))))
            flu.1 flu.2 (js "hex") 38%Z NaN _ _ _)).
  - reflexivity.
  - reflexivity.
Defined.

(** C4, as stated, fails: an input with white space around the digits is
    not of the form the claim lets through, and [parseHex] accepts it. *)
Lemma parseHex_accepts_padded_input : ~ raisesOutsidePlainForm (js " #fff ").
Proof. intros H. specialize (H eq_refl). vm_compute in H. discriminate H. Qed.

Example parseHex_padded :
  parseHex (js " #fff ") = Returns (Finite 255, Finite 255, Finite 255).
Proof. reflexivity. Qed.

Lemma Qle_bool_inject_Z (a b : Z) :
  Qle_bool (inject_Z a) (inject_Z b) = (a <=? b)%Z.
Proof. unfold Qle_bool. simpl. by rewrite !Z.mul_1_r. Qed.

Lemma Math_max_integers (a b : Z) :
  Math_max (Finite (inject_Z a)) (Finite (inject_Z b))
  = Finite (inject_Z (Z.max a b)).
Proof.
  unfold Math_max, number_le. rewrite Qle_bool_inject_Z.
  destruct (Z.leb_spec a b); f_equal; f_equal; lia.
Qed.

Lemma Math_min_integers (a b : Z) :
  Math_min (Finite (inject_Z a)) (Finite (inject_Z b))
  = Finite (inject_Z (Z.min a b)).
Proof.
  unfold Math_min, number_le. rewrite Qle_bool_inject_Z.
  destruct (Z.leb_spec a b); f_equal; f_equal; lia.
Qed.

(** The two steps of [clamp255] on an integer that [Math.floor] returned. *)
Lemma clamp_floor (f : Z) :
  Math_min (Finite 255) (Math_max (Finite 0) (Finite (inject_Z f)))
  = Finite (inject_Z (Z.min 255 (Z.max 0 f))).
Proof.
  change (Finite 0) with (Finite (inject_Z 0)).
  change (Finite 255) with (Finite (inject_Z 255)).
  by rewrite Math_max_integers, Math_min_integers.
Qed.

Lemma clamp255_channel (v : JSValue) (n : JSNumber) :
  Number_ v = Returns n ->
  clamp255 v = Returns (Finite (inject_Z (channel n))).
Proof.
  intros H. unfold clamp255. rewrite H. unfold bindO.
  destruct n as [| | |q]; try reflexivity.
  simpl Number_isNaN. cbv iota. unfold Math_floor. by rewrite clamp_floor.
Qed.

Lemma clamp255_throws (v : JSValue) (e : JSError) :
  Number_ v = Throws e -> clamp255 v = Throws e.
Proof. intros H. unfold clamp255. by rewrite H. Qed.

Lemma channel_range (n : JSNumber) : (0 <= channel n <= 255)%Z.
Proof. destruct n; simpl; lia. Qed.

Lemma Number_toString_integer (z : Z) :
  Number_toString (Finite (inject_Z z)) = JS.ofZ z.
Proof. unfold Number_toString. by rewrite Qfloor_Z. Qed.

Lemma truecolor_returns (openBase : Z) (r g b : JSValue) (nr ng nb : JSNumber) :
  Number_ r = Returns nr -> Number_ g = Returns ng -> Number_ b = Returns nb ->
  truecolor openBase r g b
  = Returns (mkStyle
               (ESC ++ JS.ofZ openBase ++ js ";2;" ++ JS.ofZ (channel nr) ++ js ";"
                ++ JS.ofZ (channel ng) ++ js ";" ++ JS.ofZ (channel nb) ++ js "m")
               (if (openBase =? 38)%Z then FG_CLOSE else BG_CLOSE)).
Proof.
  intros Hr Hg Hb. unfold truecolor.
  rewrite (clamp255_channel r nr Hr), (clamp255_channel g ng Hg),
    (clamp255_channel b nb Hb).
  unfold bindO. by rewrite !Number_toString_integer.
Qed.

(** C7 (amended). [clamp255] first converts its input with [Number]; a
    number is its own conversion.  Whenever the conversion returns, the
    channel is an integer in 0..255: 0 for NaN, 255 and 0 for the
    infinities, and the floor clamped into 0..255 for a finite value, so
    [rgb(-5, 300, 2.9)] has the channels (0, 255, 2); [truecolor] clamps
    its three channels each on its own in this way and prints them into the
    open sequence.  Of the inputs that are not numbers, [undefined] and a
    string that is no numeral convert to NaN and give 0, [null] and [false]
    give 0, [true] gives 1, and a numeric string or a BigInt gives its
    number clamped; a Symbol cannot be converted, and then [clamp255] and
    [truecolor] throw a TypeError, as they throw whatever the conversion of
    an object throws. *)
Theorem truecolor_clamps_channels (openBase : Z) (r g b : JSValue) :
  (forall v n, Number_ v = Returns n ->
     clamp255 v = Returns (Finite (inject_Z (channel n)))
     /\ (0 <= channel n <= 255)%Z)
  /\ (forall v e, Number_ v = Throws e -> clamp255 v = Throws e)
  /\ (clamp255 (VNumber NaN) = Returns (Finite 0)
      /\ clamp255 (VNumber PosInfinity) = Returns (Finite 255)
      /\ clamp255 (VNumber NegInfinity) = Returns (Finite 0)
      /\ forall q, clamp255 (VNumber (Finite q))
                   = Returns (Finite (inject_Z (Z.min 255 (Z.max 0 (Qfloor q))))))
  /\ (clamp255 VUndefined = Returns (Finite 0)
      /\ clamp255 VNull = Returns (Finite 0)
      /\ clamp255 (VBoolean false) = Returns (Finite 0)
      /\ clamp255 (VBoolean true) = Returns (Finite 1)
      /\ (forall s, clamp255 (VString s NaN) = Returns (Finite 0))
      /\ clamp255 VSymbol = Throws TypeError)
  /\ (forall nr ng nb,
        Number_ r = Returns nr -> Number_ g = Returns ng -> Number_ b = Returns nb ->
        truecolor openBase r g b
        = Returns (mkStyle
                     (ESC ++ JS.ofZ openBase ++ js ";2;" ++ JS.ofZ (channel nr)
                      ++ js ";" ++ JS.ofZ (channel ng) ++ js ";"
                      ++ JS.ofZ (channel nb) ++ js "m")
                     (if (openBase =? 38)%Z then FG_CLOSE else BG_CLOSE)))
  /\ (forall e,
        Number_ r = Throws e
        \/ (exists nr, Number_ r = Returns nr /\ Number_ g = Throws e)
        \/ (exists nr ng, Number_ r = Returns nr /\ Number_ g = Returns ng
                          /\ Number_ b = Throws e) ->
        truecolor openBase r g b = Throws e)
  /\ (clamp255 (VNumber (Finite (-5))), clamp255 (VNumber (Finite 300)),
      clamp255 (VNumber (Finite double_2_9)))
     = (Returns (Finite 0), Returns (Finite 255), Returns (Finite 2))
  /\ rgb [VNumber (Finite (-5)); VNumber (Finite 300); VNumber (Finite double_2_9)]
     = Returns (mkStyle (ESC ++ js "38;2;0;255;2m") FG_CLOSE).
Proof.
  split.
  { intros v n H. split; [by apply clamp255_channel|apply channel_range]. }
  split; [apply clamp255_throws|].
  split.
  { do 3 (split; [reflexivity|]).
    intros q. apply (clamp255_channel (VNumber (Finite q)) _ eq_refl). }
  split; [repeat split; reflexivity|].
  split; [apply truecolor_returns|].
  split; [|split; reflexivity].
  intros e [Hr|[(nr & Hr & Hg)|(nr & ng & Hr & Hg & Hb)]]; unfold truecolor.
  - by rewrite (clamp255_throws r e Hr).
  - by rewrite (clamp255_channel r nr Hr), (clamp255_throws g e Hg).
  - by rewrite (clamp255_channel r nr Hr), (clamp255_channel g ng Hg),
      (clamp255_throws b e Hb).
Qed.

Lemma truecolor_clamps_channels_witness :
  Number_ (VBoolean true) = Returns (Finite 1)
  /\ Number_ VSymbol = Throws TypeError
  /\ clamp255 (VBoolean true) = Returns (Finite 1)
  /\ truecolor 38 (VNumber (Finite 1)) VSymbol VUndefined = Throws TypeError.
Proof.
  split; [reflexivity|]. split; [reflexivity|].
  pose proof (truecolor_clamps_channels 38 (VNumber (Finite 1)) VSymbol VUndefined)
    as (Hc & _ & _ & _ & _ & Ht & _).
  split.
  - exact (proj1 (Hc (VBoolean true) (Finite 1) eq_refl)).
  - apply Ht. right. left. exists (Finite 1). split; reflexivity.
Defined.

(** C7, as stated, fails: a Symbol is an input that is not a number, and
    [clamp255] does not clamp it to 0 but throws. *)
Lemma clamp255_throws_on_symbol : ~ clampsAsClaimed VSymbol.
Proof. intros [(z & H & _) _]. discriminate H. Qed.

(** Nor is every input that is not a number clamped to 0 when it can be
    converted: [true] gives 1. *)
Example clamp255_true : ~ clampsAsClaimed (VBoolean true).
Proof. intros [_ H]. specialize (H eq_refl). discriminate H. Qed.

(** ** More on the compositor *)

Lemma escapeRegExp_app (s t : jsstring) :
  escapeRegExp (s ++ t) = escapeRegExp s ++ escapeRegExp t.
Proof. unfold escapeRegExp. apply flat_map_app. Qed.

Lemma escapeRegExp_length (s : jsstring) :
  length s <= length (escapeRegExp s) <= 2 * length s.
Proof.
  induction s as [|c s IH]; simpl; [lia|].
  rewrite length_app. fold (escapeRegExp s).
  destruct (syntaxCharacter c); simpl; lia.
Qed.

(** X1. A pattern source made by [escapeRegExp] denotes the string it was
    made from, whatever syntax characters the string holds (the [[] of every
    escape sequence is one); two strings with the same escaped source are
    the same string; escaping goes code unit by code unit and at most
    doubles the length. *)
Theorem escapeRegExp_denotes_literal (s t : jsstring) :
  parsePattern (escapeRegExp s) = Some s
  /\ (escapeRegExp s = escapeRegExp t <-> s = t)
  /\ escapeRegExp (s ++ t) = escapeRegExp s ++ escapeRegExp t
  /\ length s <= length (escapeRegExp s) <= 2 * length s.
Proof.
  split; [apply parsePattern_escapeRegExp|]. split; [|split].
  - split; [|by intros ->].
    intros H. apply (f_equal parsePattern) in H.
    rewrite !parsePattern_escapeRegExp in H. by injection H.
  - apply escapeRegExp_app.
  - apply escapeRegExp_length.
Qed.

Lemma applyStyle_nonempty (out : jsstring) (s : Style) :
  out <> [] -> applyStyle out s <> [].
Proof.
  intros Hout H. apply (f_equal length) in H.
  unfold applyStyle in H. rewrite replace_g_escaped in H.
  rewrite !length_app in H.
  destruct (close s) as [|c cl] eqn:Hc; [|simpl in H; lia].
  destruct out as [|a out]; [done|].
  simpl in H. rewrite !length_app in H. simpl in H. lia.
Qed.

Lemma fold_applyStyle_nonempty (chain : list Style) (out : jsstring) :
  out <> [] -> fold_left applyStyle chain out <> [].
Proof.
  revert out. induction chain as [|s rest IH]; intros out H; simpl; [done|].
  apply IH. by apply applyStyle_nonempty.
Qed.

Lemma applyStyles_nil_iff (text : jsstring) (chain : list Style) :
  applyStyles text chain = [] <-> text = [].
Proof.
  split.
  - intros H. destruct text as [|c text]; [done|].
    rewrite applyStyles_fold in H by done.
    by apply fold_applyStyle_nonempty in H.
  - intros ->. by destruct chain.
Qed.

Lemma applyStyles_compose (text : jsstring) (a b : list Style) :
  applyStyles text (a ++ b) = applyStyles (applyStyles text a) b.
Proof.
  destruct text as [|c text].
  - rewrite (proj2 (applyStyles_nil_iff [] a) eq_refl).
    by rewrite !(proj2 (applyStyles_nil_iff [] _) eq_refl).
  - assert (Hne : applyStyles (c :: text) a <> []).
    { intros H. by apply applyStyles_nil_iff in H. }
    rewrite (applyStyles_fold (applyStyles (c :: text) a)) by done.
    rewrite !applyStyles_fold by done. apply fold_left_app.
Qed.

(** X2. Rendering composes along the chain: rendering a text through the
    styles [a] followed by the styles [b] is rendering through [a] and then
    rendering the result through [b], so [flu.bold.red(x)] is
    [flu.red(flu.bold(x))]. *)
Theorem applyStyles_app (text : jsstring) (a b : list Style) :
  applyStyles text (a ++ b) = applyStyles (applyStyles text a) b.
Proof. apply applyStyles_compose. Qed.

Lemma wrap_pieces (o c : jsstring) (pieces : list jsstring) :
  pieces <> [] ->
  o ++ JS.join (c ++ o) pieces ++ c
  = concat (map (fun p => o ++ p ++ c) pieces).
Proof.
  induction pieces as [|p [|q rest] IH]; intros H; [done| |].
  - simpl. by rewrite app_nil_r.
  - rewrite join_cons by done.
    change (concat (map (fun p => o ++ p ++ c) (p :: q :: rest)))
      with ((o ++ p ++ c) ++ concat (map (fun p => o ++ p ++ c) (q :: rest))).
    rewrite <- IH by done. by rewrite <- !app_assoc.
Qed.

(** X3. Nesting is safe: one step of the compositor, for a style pair free
    of dollar signs with a non-empty close sequence, wraps every piece of
    the text between two occurrences of the close sequence in its own open
    and close sequence, so the style is on again behind each inner close. *)
Theorem applyStyle_wraps_each_piece (s : Style) (out : jsstring) :
  dollarFree (close s ++ open s) = true ->
  close s <> [] ->
  applyStyle out s
  = concat (map (fun p => open s ++ p ++ close s) (split (close s) out)).
Proof.
  intros Hd Hc. unfold applyStyle, split. rewrite replace_g_escaped.
  rewrite <- wrap_pieces by apply splitFrom_nonempty.
  by rewrite <- (replaceFrom_join _ _ _ [] []) by (done || lia).
Qed.

Lemma applyStyle_wraps_each_piece_witness :
  dollarFree (close (builtin "red") ++ open (builtin "red")) = true
  /\ close (builtin "red") <> []
  /\ applyStyle (js "a" ++ code 34 ++ js "b" ++ code 39 ++ js "c") (builtin "red")
     = (code 31 ++ js "a" ++ code 34 ++ js "b" ++ code 39)
       ++ (code 31 ++ js "c" ++ code 39).
Proof.
  split; [reflexivity|]. split; [discriminate|].
  rewrite (applyStyle_wraps_each_piece (builtin "red")
             (js "a" ++ code 34 ++ js "b" ++ code 39 ++ js "c")
             eq_refl ltac:(discriminate)).
  reflexivity.
Defined.

Lemma joinArgs_nil_iff (args : list jsstring) :
  joinArgs args = [] <-> args = [] \/ args = [[]].
Proof.
  unfold joinArgs. split.
  - destruct args as [|x [|y rest]]; simpl.
    + by left.
    + intros ->. by right.
    + intros H. apply (f_equal length) in H.
      rewrite !length_app in H. simpl in H. lia.
  - by intros [->| ->].
Qed.

(** X4. A builder call returns the empty string exactly when it is given no
    argument or one argument whose string form is empty, whatever styles it
    has accumulated;
    in every other case the output is not empty.  Underneath, a rendering is
    empty exactly when the text is; and several arguments render as their
    space-joined string does. *)
Theorem apply_empty_iff (w : World) (b : Builder) (args : list jsstring)
    (text : jsstring) (chain : list Style) :
  (apply w b args = [] <-> args = [] \/ args = [[]])
  /\ (applyStyles text chain = [] <-> text = [])
  /\ apply w b args = apply w b [joinArgs args].
Proof.
  split; [|split; [apply applyStyles_nil_iff|done]].
  unfold apply. rewrite applyStyles_nil_iff. apply joinArgs_nil_iff.
Qed.

(** ** More on the builder and the registry *)

Lemma allocate_subseteq (w : World) (elems : list Style) :
  arrays w ⊆ arrays (allocate w elems).1.
Proof.
  unfold allocate. simpl. apply insert_subseteq.
  apply not_elem_of_dom, is_fresh.
Qed.


Lemma callExtend_arrays (w : World)
    (defs : list (jsstring * (Style + StyleFactory))) :
  arrays (callExtend w defs) = arrays w.
Proof.
  unfold callExtend. revert w.
  induction defs as [|[k [st|f]] defs IH]; intros w; simpl; [done|..];
    by rewrite IH.
Qed.

(** X6. A builder keeps the styles it was created with: registering a
    style, registering a factory or extending the registry, under any name,
    the names of its own styles included, changes neither the styles of an
    existing builder nor what it renders. *)
Theorem registration_leaves_builders (w : World) (b : Builder)
    (args : list jsstring) (name open close : jsstring) (factory : StyleFactory)
    (defs : list (jsstring * (Style + StyleFactory))) :
  (stylesOf (callRegisterStyle w name open close) b = stylesOf w b
   /\ apply (callRegisterStyle w name open close) b args = apply w b args)
  /\ (stylesOf (callRegisterDynamicStyle w name factory) b = stylesOf w b
      /\ apply (callRegisterDynamicStyle w name factory) b args = apply w b args)
  /\ (stylesOf (callExtend w defs) b = stylesOf w b
      /\ apply (callExtend w defs) b args = apply w b args).
Proof.
  split; [done|]. split; [done|].
  unfold apply, stylesOf. by rewrite callExtend_arrays.
Qed.

(** X7. The static table comes first: when a name has a static style,
    registering a factory under the same name does not change what the name
    resolves to; access still returns a builder with the static style
    appended. *)
Theorem static_style_wins (w : World) (b : Builder) (name : jsstring)
    (st : Style) (factory : StyleFactory) :
  name ∉ pluginNames ->
  styles (registry w) !! name = Some st ->
  exists w' b',
    get (callRegisterDynamicStyle w name factory) b (PString name)
    = (w', Chained b')
    /\ stylesOf w' b' = stylesOf w b ++ [st].
Proof.
  intros Hn Hst.
  set (w1 := callRegisterDynamicStyle w name factory).
  rewrite (get_static w1 b name st Hn Hst).
  destruct (allocate_spec w1 (stylesOf w1 b ++ [st])) as (_ & _ & Hnew & _).
  by eexists _, _.
Qed.

Lemma static_style_wins_witness :
  (js "red" ∉ pluginNames)
  /\ styles (registry flu.1) !! js "red" = Some (builtin "red")
  /\ exists w' b',
       get (callRegisterDynamicStyle flu.1 (js "red") rgb) flu.2 (PString (js "red"))
       = (w', Chained b')
       /\ stylesOf w' b' = stylesOf flu.1 flu.2 ++ [builtin "red"].
Proof.
  assert (H1 : js "red" ∉ pluginNames).
  { unfold pluginNames. rewrite !not_elem_of_cons. repeat split; try discriminate.
    apply not_elem_of_nil. }
  assert (H2 : styles (registry flu.1) !! js "red" = Some (builtin "red"))
    by (vm_compute; reflexivity).
  split; [exact H1|]. split; [exact H2|].
  exact (static_style_wins flu.1 flu.2 (js "red") (builtin "red") rgb H1 H2).
Defined.

Lemma get_dynamic (w : World) (b : Builder) (name : jsstring) (f : StyleFactory) :
  name ∉ pluginNames ->
  styles (registry w) !! name = None ->
  inheritedStatic (registry w) name = false ->
  dynamics (registry w) !! name = Some f ->
  get w b (PString name) = (w, DynamicAccessor b name).
Proof.
  intros Hn Hst Hi Hf. unfold get, pluginNames, StyleFactory in *.
  rewrite !not_elem_of_cons in Hn. destruct Hn as (H1 & H2 & H3 & _).
  rewrite !decide_False by congruence.
  by rewrite Hst, Hi, Hf.
Qed.

(** X8. A dynamic name for which the static table has nothing, neither an
    entry of its own nor a truthy value inherited through its prototype
    chain, resolves to an accessor without touching the world,
    and the accessor looks its factory up when it is called: if another
    factory is registered under the name between the access and the call,
    the call uses the new one.  When the factory returns a style, the call
    returns a new builder with that style appended and leaves the parent's
    styles as they were. *)
Theorem dynamic_accessor_binds_late (w : World) (b : Builder) (name : jsstring)
    (f0 f : StyleFactory) (args : list JSValue) (st : Style) :
  name ∉ pluginNames ->
  inheritedStatic (registry w) name = false ->
  styles (registry w) !! name = None ->
  dynamics (registry w) !! name = Some f0 ->
  f args = Returns st ->
  __styles b ∈ dom (arrays w) ->
  get w b (PString name) = (w, DynamicAccessor b name)
  /\ exists w' b',
       callDynamicAccessor (callRegisterDynamicStyle w name f) b name args
       = Returns (w', b')
       /\ stylesOf w' b' = stylesOf w b ++ [st]
       /\ stylesOf w' b = stylesOf w b
       /\ registry w' = registry (callRegisterDynamicStyle w name f).
Proof.
  intros Hn Hi Hst Hf0 Hf Hb. split; [by eapply get_dynamic|].
  set (w1 := callRegisterDynamicStyle w name f).
  assert (Hl : dynamics (registry w1) !! name = Some f) by apply lookup_insert_eq.
  unfold callDynamicAccessor, StyleFactory in *. rewrite Hl, Hf. unfold bindO.
  pose proof (allocate_spec w1 (stylesOf w1 b ++ [st])) as Ha.
  destruct (allocate w1 (stylesOf w1 b ++ [st])) as [w' l].
  destruct Ha as (_ & Hreg & Hnew & Hold). simpl in *.
  exists w', (create l). split; [done|]. split; [exact Hnew|].
  split; [|exact Hreg].
  unfold stylesOf. by rewrite !lookup_total_alt, (Hold _ Hb).
Qed.

Lemma dynamic_accessor_binds_late_witness :
  (js "rgb" ∉ pluginNames)
  /\ get flu.1 flu.2 (PString (js "rgb")) = (flu.1, DynamicAccessor flu.2 (js "rgb"))
  /\ exists w' b',
       callDynamicAccessor (callRegisterDynamicStyle flu.1 (js "rgb") bgRgb)
         flu.2 (js "rgb") []
       = Returns (w', b')
       /\ stylesOf w' b' = stylesOf flu.1 flu.2 ++ [mkStyle (ESC ++ js "48;2;0;0;0m") BG_CLOSE].
Proof.
  assert (H1 : js "rgb" ∉ pluginNames).
  { unfold pluginNames. rewrite !not_elem_of_cons. repeat split; try discriminate.
    apply not_elem_of_nil. }
  assert (H2 : styles (registry flu.1) !! js "rgb" = None) by (vm_compute; reflexivity).
  assert (H3 : dynamics (registry flu.1) !! js "rgb" = Some rgb)
    by (vm_compute; reflexivity).
  assert (H4 : bgRgb [] = Returns (mkStyle (ESC ++ js "48;2;0;0;0m") BG_CLOSE))
    by (vm_compute; reflexivity).
  assert (H5 : __styles flu.2 ∈ dom (arrays flu.1)).
  { apply elem_of_dom. exists []. vm_compute. reflexivity. }
  assert (H0 : inheritedStatic (registry flu.1) (js "rgb") = false)
    by (vm_compute; reflexivity).
  pose proof (dynamic_accessor_binds_late flu.1 flu.2 (js "rgb") rgb bgRgb []
                _ H1 H0 H2 H3 H4 H5) as [Hg (w' & b' & Hc & Hs & _)].
  split; [exact H1|]. split; [exact Hg|]. exists w', b'. by split.
Defined.






Lemma chained_static (w : World) (b : Builder) (n : string) (st : Style) :
  JS.ofString n ∉ pluginNames ->
  styles (registry w) !! JS.ofString n = Some st ->
  registry (chained (w, b) n).1 = registry w
  /\ stylesOf (chained (w, b) n).1 (chained (w, b) n).2 = stylesOf w b ++ [st].
Proof.
  intros Hn Hst. unfold chained. simpl.
  rewrite (get_static w b _ st Hn Hst).
  destruct (allocate_spec w (stylesOf w b ++ [st])) as (_ & Hreg & Hnew & _).
  by split.
Qed.

Lemma chain_styles (reg : Registry) (names : list string) (sts : list Style) :
  Forall2 (fun n st => (JS.ofString n ∉ pluginNames)
                       /\ styles reg !! JS.ofString n = Some st) names sts ->
  forall (w : World) (b : Builder),
    registry w = reg ->
    registry (fold_left chained names (w, b)).1 = reg
    /\ stylesOf (fold_left chained names (w, b)).1 (fold_left chained names (w, b)).2
       = stylesOf w b ++ sts.
Proof.
  induction 1 as [|n st names sts [Hn Hst] _ IH]; intros w b Hreg; simpl.
  - by rewrite app_nil_r.
  - rewrite <- Hreg in Hst.
    destruct (chained_static w b n st Hn Hst) as [Hr Hs].
    destruct (chained (w, b) n) as [w1 b1]. simpl in *.
    destruct (IH w1 b1) as [Hr' Hs']; [congruence|].
    split; [done|]. by rewrite Hs', Hs, <- app_assoc.
Qed.

(** X10. A chain accumulates its styles in order: accessing a list of
    static style names one after the other, from any builder, ends at a
    builder whose styles are those of the start followed by the style of
    each name, in the order of access and with repetitions kept; the
    registry is untouched, and a call of the last builder renders what the
    start renders and then the styles of the names on top of it. *)
Theorem chain_accumulates_in_order (w : World) (b : Builder)
    (names : list string) (sts : list Style) (args : list jsstring) :
  Forall2 (fun n st => (JS.ofString n ∉ pluginNames)
                       /\ styles (registry w) !! JS.ofString n = Some st)
    names sts ->
  registry (fold_left chained names (w, b)).1 = registry w
  /\ stylesOf (fold_left chained names (w, b)).1 (fold_left chained names (w, b)).2
     = stylesOf w b ++ sts
  /\ apply (fold_left chained names (w, b)).1 (fold_left chained names (w, b)).2 args
     = applyStyles (apply w b args) sts.
Proof.
  intros H. destruct (chain_styles (registry w) names sts H w b eq_refl) as [Hr Hs].
  split; [done|]. split; [done|].
  unfold apply. rewrite Hs. apply applyStyles_compose.
Qed.

Lemma chain_accumulates_in_order_witness :
  Forall2 (fun n st => (JS.ofString n ∉ pluginNames)
                       /\ styles (registry flu.1) !! JS.ofString n = Some st)
    ["bold"; "red"; "bold"]%string [builtin "bold"; builtin "red"; builtin "bold"]
  /\ stylesOf (fold_left chained ["bold"; "red"; "bold"]%string flu).1
       (fold_left chained ["bold"; "red"; "bold"]%string flu).2
     = [builtin "bold"; builtin "red"; builtin "bold"].
Proof.
  assert (Hp : forall n : string,
             (n = "bold" \/ n = "red")%string -> JS.ofString n ∉ pluginNames).
  { intros n [-> | ->]; unfold pluginNames; rewrite !not_elem_of_cons;
      repeat split; try discriminate; apply not_elem_of_nil. }
  assert (H : Forall2 (fun n st => (JS.ofString n ∉ pluginNames)
                         /\ styles (registry flu.1) !! JS.ofString n = Some st)
                ["bold"; "red"; "bold"]%string
                [builtin "bold"; builtin "red"; builtin "bold"]).
  { repeat constructor; try (apply Hp; auto); vm_compute; reflexivity. }
  split; [exact H|].
  exact (proj1 (proj2 (chain_accumulates_in_order flu.1 flu.2 _ _ [] H))).
Defined.

(** ** More on the catalog *)

(** X11. What [createDefaultRegistry] builds from [BASE_COLORS]: the colour
    at index [i] gets the foreground code 30+i, its bright variant 90+i,
    its background 40+i and its bright background 100+i, the foreground
    entries closing with code 39 and the background entries with 49; [gray]
    and [grey] are the bright black entry, [bgGray] and [bgGrey] the bright
    black background; with the eight modifiers that makes 44 names, none of
    them overwritten by another. *)
Theorem default_catalog (i : nat) (name : jsstring) :
  BASE_COLORS !! i = Some name ->
  (styles createDefaultRegistry !! name
   = Some (mkStyle (code (30 + Z.of_nat i)) (code 39))
   /\ styles createDefaultRegistry !! (name ++ js "Bright")
      = Some (mkStyle (code (90 + Z.of_nat i)) (code 39))
   /\ styles createDefaultRegistry !! (js "bg" ++ capitalize name)
      = Some (mkStyle (code (40 + Z.of_nat i)) (code 49))
   /\ styles createDefaultRegistry !! (js "bg" ++ capitalize name ++ js "Bright")
      = Some (mkStyle (code (100 + Z.of_nat i)) (code 49)))
  /\ styles createDefaultRegistry !! js "gray"
     = styles createDefaultRegistry !! js "blackBright"
  /\ styles createDefaultRegistry !! js "grey"
     = styles createDefaultRegistry !! js "blackBright"
  /\ styles createDefaultRegistry !! js "bgGray"
     = styles createDefaultRegistry !! js "bgBlackBright"
  /\ styles createDefaultRegistry !! js "bgGrey"
     = styles createDefaultRegistry !! js "bgBlackBright"
  /\ size (styles createDefaultRegistry) = 44.
Proof.
  intros H. split; [|repeat split; vm_compute; reflexivity].
  do 8 (destruct i as [|i];
        [injection H as <-; repeat split; vm_compute; reflexivity|]).
  discriminate H.
Qed.

Lemma default_catalog_witness :
  BASE_COLORS !! 5 = Some (js "magenta")
  /\ styles createDefaultRegistry !! js "bgMagentaBright"
     = Some (mkStyle (code 105) (code 49)).
Proof.
  split; [reflexivity|].
  exact (proj2 (proj2 (proj2 (proj1
           (default_catalog 5 (js "magenta") eq_refl))))).
Defined.

Lemma builtins_checked :
  forallb wellFormedBuiltin (map_to_list (styles createDefaultRegistry)) = true.
Proof. vm_compute. reflexivity. Qed.

(** X12. Every built-in static style has a non-empty open and a non-empty
    close sequence without a dollar sign in either, so that reopening works
    on it literally; and [reset] is the only one whose open sequence is its
    close sequence. *)
Theorem builtin_styles_well_formed (name : jsstring) (st : Style) :
  styles createDefaultRegistry !! name = Some st ->
  open st <> [] /\ close st <> []
  /\ dollarFree (close st ++ open st) = true
  /\ (open st = close st <-> name = js "reset").
Proof.
  intros H. apply elem_of_map_to_list, list_elem_of_In in H.
  pose proof builtins_checked as Hall.
  rewrite forallb_forall in Hall. apply Hall in H.
  unfold wellFormedBuiltin in H. simpl in H.
  apply andb_true_iff in H as [H Heq].
  apply andb_true_iff in H as [H Hd].
  apply andb_true_iff in H as [Ho Hc].
  split; [by destruct (open st)|]. split; [by destruct (close st)|].
  split; [done|].
  apply Bool.eqb_prop in Heq.
  rewrite <- (bool_decide_spec (open st = close st)),
          <- (bool_decide_spec (name = js "reset")).
  by rewrite Heq.
Qed.

Lemma builtin_styles_well_formed_witness :
  styles createDefaultRegistry !! js "underline" = Some (builtin "underline")
  /\ open (builtin "underline") <> [] /\ close (builtin "underline") <> []
  /\ dollarFree (close (builtin "underline") ++ open (builtin "underline")) = true
  /\ (open (builtin "underline") = close (builtin "underline")
      <-> js "underline" = js "reset").
Proof.
  assert (H : styles createDefaultRegistry !! js "underline"
              = Some (builtin "underline")) by (vm_compute; reflexivity).
  split; [exact H|].
  exact (builtin_styles_well_formed (js "underline") (builtin "underline") H).
Defined.

Lemma dollarFree_app (a b : jsstring) :
  dollarFree (a ++ b) = dollarFree a && dollarFree b.
Proof. unfold dollarFree. by rewrite existsb_app, negb_orb. Qed.

Lemma dollarFree_uint (d : Decimal.uint) :
  dollarFree (JS.ofString (NilEmpty.string_of_uint d)) = true.
Proof. induction d; simpl; done. Qed.

Lemma dollarFree_ofZ (z : Z) : dollarFree (JS.ofZ z) = true.
Proof.
  unfold JS.ofZ. destruct (Z.to_int z) as [d|d]; simpl.
  - apply dollarFree_uint.
  - apply (dollarFree_uint d).
Qed.

Lemma dollarFree_code (n : Z) : dollarFree (code n) = true.
Proof.
  unfold code. by rewrite !dollarFree_app, dollarFree_ofZ.
Qed.

(** A truecolor style is returned only when the three conversions return,
    and is then made of the three channels. *)
Lemma truecolor_inv (openBase : Z) (r g b : JSValue) (st : Style) :
  truecolor openBase r g b = Returns st ->
  exists nr ng nb,
    st = mkStyle
           (ESC ++ JS.ofZ openBase ++ js ";2;" ++ JS.ofZ (channel nr) ++ js ";"
            ++ JS.ofZ (channel ng) ++ js ";" ++ JS.ofZ (channel nb) ++ js "m")
           (if (openBase =? 38)%Z then FG_CLOSE else BG_CLOSE).
Proof.
  intros H.
  destruct (Number_ r) as [nr|e] eqn:Hr;
    [|unfold truecolor in H; by rewrite (clamp255_throws r e Hr) in H].
  destruct (Number_ g) as [ng|e] eqn:Hg;
    [|unfold truecolor in H;
      by rewrite (clamp255_channel r nr Hr), (clamp255_throws g e Hg) in H].
  destruct (Number_ b) as [nb|e] eqn:Hb;
    [|unfold truecolor in H;
      by rewrite (clamp255_channel r nr Hr), (clamp255_channel g ng Hg),
        (clamp255_throws b e Hb) in H].
  rewrite (truecolor_returns openBase r g b nr ng nb Hr Hg Hb) in H.
  injection H as <-. by exists nr, ng, nb.
Qed.

(** X13. No sequence the library builds holds a dollar sign: not [code(n)]
    for any [n], and not the open or close sequence of a truecolor style,
    whatever the base and the channel arguments it was returned for; the
    close sequence of a truecolor style is never empty.  So the replacement
    of the compositor reads all of them literally. *)
Theorem built_sequences_dollar_free (n openBase : Z) (r g b : JSValue) :
  dollarFree (code n) = true
  /\ forall st, truecolor openBase r g b = Returns st ->
       dollarFree (close st ++ open st) = true /\ close st <> [].
Proof.
  split; [apply dollarFree_code|].
  intros st (nr & ng & nb & ->)%truecolor_inv.
  cbn [open close]. split.
  - rewrite !dollarFree_app, !dollarFree_ofZ.
    by destruct (openBase =? 38)%Z.
  - by destruct (openBase =? 38)%Z.
Qed.

Lemma ofString_inj (s t : string) : JS.ofString s = JS.ofString t -> s = t.
Proof.
  revert t. induction s as [|a s IH]; intros [|b t]; simpl; try done.
  intros H. injection H as Hab Hst.
  apply (f_equal ascii_of_N) in Hab. rewrite !ascii_N_embedding in Hab.
  f_equal; [done|by apply IH].
Qed.

Lemma ofZ_inj (n m : Z) : JS.ofZ n = JS.ofZ m -> n = m.
Proof.
  unfold JS.ofZ. intros H%ofString_inj.
  apply (f_equal NilEmpty.int_of_string) in H.
  rewrite !NilEmpty.isi in H. injection H as H.
  by apply DecimalZ.to_int_inj.
Qed.

(** X14. [code] is injective on the integers a number holds exactly: two
    codes give the same sequence only when they are the same number; so the
    open sequences of two built-in styles differ whenever their codes do. *)
Theorem code_injective (n m : Z) :
  safeInteger n -> safeInteger m -> (code n = code m <-> n = m).
Proof.
  intros _ _. split; [|by intros ->].
  unfold code. intros H. apply app_inv_head in H.
  apply app_inv_tail in H. by apply ofZ_inj.
Qed.

Lemma code_injective_witness :
  safeInteger 31 /\ safeInteger 39 /\ (code 31 = code 39 <-> 31%Z = 39%Z).
Proof.
  assert (H1 : safeInteger 31) by (unfold safeInteger; simpl; lia).
  assert (H2 : safeInteger 39) by (unfold safeInteger; simpl; lia).
  split; [exact H1|]. split; [exact H2|].
  exact (code_injective 31 39 H1 H2).
Defined.

(** ** More on the colour helpers *)

Lemma channel_integer (z : Z) :
  (0 <= z <= 255)%Z -> channel (Finite (inject_Z z)) = z.
Proof. intros H. unfold channel. rewrite Qfloor_Z. lia. Qed.

(** X15. Clamping is idempotent and monotone: a channel that [clamp255] has
    returned is left as it is by clamping it again, and of two finite inputs
    the larger never gets the smaller channel. *)
Theorem clamp255_idempotent_monotone (v : JSValue) (p q : Q) :
  (p <= q)%Q ->
  (forall c, clamp255 v = Returns c -> clamp255 (VNumber c) = Returns c)
  /\ exists a b,
       clamp255 (VNumber (Finite p)) = Returns a
       /\ clamp255 (VNumber (Finite q)) = Returns b
       /\ number_le a b = true.
Proof.
  intros Hpq. split.
  - intros c Hc. destruct (Number_ v) as [n|e] eqn:Hn;
      [|by rewrite (clamp255_throws v e Hn) in Hc].
    rewrite (clamp255_channel v n Hn) in Hc. injection Hc as <-.
    rewrite (clamp255_channel (VNumber _) _ eq_refl).
    by rewrite channel_integer by apply channel_range.
  - eexists _, _.
    split; [apply (clamp255_channel (VNumber (Finite p)) _ eq_refl)|].
    split; [apply (clamp255_channel (VNumber (Finite q)) _ eq_refl)|].
    unfold number_le. rewrite Qle_bool_inject_Z. apply Z.leb_le.
    pose proof (Qfloor_resp_le p q Hpq). simpl. lia.
Qed.

Lemma clamp255_idempotent_monotone_witness :
  (double_2_9 <= 300)%Q
  /\ clamp255 (VNumber (Finite 255)) = Returns (Finite 255)
  /\ exists a b,
       clamp255 (VNumber (Finite double_2_9)) = Returns a
       /\ clamp255 (VNumber (Finite 300)) = Returns b
       /\ number_le a b = true.
Proof.
  assert (H : (double_2_9 <= 300)%Q) by (vm_compute; discriminate).
  split; [exact H|].
  destruct (clamp255_idempotent_monotone (VNumber (Finite 300)) double_2_9 300 H)
    as [Hi Hm].
  split; [|exact Hm]. apply Hi. vm_compute. reflexivity.
Defined.

Lemma hexDigit_value (c : N) (v : Z) :
  hexDigit c = Some v -> (0 <= v <= 15)%Z.
Proof.
  unfold hexDigit.
  destruct (N.leb_spec 48 c), (N.leb_spec c 57); simpl;
    try (intros [= <-]; lia);
    destruct (N.leb_spec 97 c), (N.leb_spec c 102); simpl;
    try (intros [= <-]; lia);
    destruct (N.leb_spec 65 c), (N.leb_spec c 70); simpl;
    try (intros [= <-]; lia); done.
Qed.

Lemma hexDigits_range (h : jsstring) (ds : list Z) :
  hexDigits h = Some ds -> Forall (fun d => (0 <= d <= 15)%Z) ds.
Proof.
  destruct h as [|x1 [|x2 [|x3 [|x4 [|x5 [|x6 [|x7 rest]]]]]]]; try done; simpl.
  - destruct (hexDigit x1) eqn:H1; [|done].
    destruct (hexDigit x2) eqn:H2; [|done].
    destruct (hexDigit x3) eqn:H3; [|done]. simpl. intros [= <-].
    repeat constructor; by eapply hexDigit_value.
  - destruct (hexDigit x1) eqn:H1; [|done].
    destruct (hexDigit x2) eqn:H2; [|done].
    destruct (hexDigit x3) eqn:H3; [|done].
    destruct (hexDigit x4) eqn:H4; [|done].
    destruct (hexDigit x5) eqn:H5; [|done].
    destruct (hexDigit x6) eqn:H6; [|done]. simpl. intros [= <-].
    repeat constructor; by eapply hexDigit_value.
Qed.

(** X16. What [parseHex] returns are three bytes: integers from 0 to 255,
    which [clamp255] leaves as they are; so the [hex] and [bgHex] factories
    print exactly the parsed bytes into the open sequence, after the base
    they are given. *)
Theorem parseHex_returns_bytes (hex : jsstring) (r g b : JSNumber) :
  parseHex hex = Returns (r, g, b) ->
  exists zr zg zb : Z,
    (r, g, b) = (Finite (inject_Z zr), Finite (inject_Z zg), Finite (inject_Z zb))
    /\ (0 <= zr <= 255 /\ 0 <= zg <= 255 /\ 0 <= zb <= 255)%Z
    /\ (clamp255 (VNumber r), clamp255 (VNumber g), clamp255 (VNumber b))
       = (Returns r, Returns g, Returns b)
    /\ forall (openBase : Z) (asNumber : JSNumber),
         hexWith openBase [VString hex asNumber]
         = Returns (mkStyle
                      (ESC ++ JS.ofZ openBase ++ js ";2;" ++ JS.ofZ zr ++ js ";"
                       ++ JS.ofZ zg ++ js ";" ++ JS.ofZ zb ++ js "m")
                      (if (openBase =? 38)%Z then FG_CLOSE else BG_CLOSE)).
Proof.
  intros H. pose proof H as Hspec. rewrite parseHex_refines in Hspec.
  unfold parseHexSpec in Hspec.
  destruct (hexDigits (stripHash (trim hex)))
    as [[|d1 [|d2 [|d3 [|d4 [|d5 [|d6 [|d7 ds]]]]]]]|] eqn:E; try done.
  injection Hspec as <- <- <-.
  apply hexDigits_range in E.
  repeat match goal with
         | H : Forall _ (_ :: _) |- _ => apply Forall_cons in H as [? H]
         end.
  exists (16 * d1 + d2)%Z, (16 * d3 + d4)%Z, (16 * d5 + d6)%Z.
  unfold byte in *.
  assert (Hc : forall z, (0 <= z <= 255)%Z ->
                 clamp255 (VNumber (Finite (inject_Z z)))
                 = Returns (Finite (inject_Z z))).
  { intros z Hz. rewrite (clamp255_channel (VNumber _) _ eq_refl).
    by rewrite channel_integer. }
  split; [done|]. split; [lia|]. split.
  - by rewrite !Hc by lia.
  - intros openBase asNumber.
    change (hexWith openBase [VString hex asNumber])
      with (bindO (parseHex hex) (fun '(r, g, b) =>
              truecolor openBase (VNumber r) (VNumber g) (VNumber b))).
    rewrite H. unfold bindO.
    rewrite (truecolor_returns openBase (VNumber _) (VNumber _) (VNumber _)
               _ _ _ eq_refl eq_refl eq_refl).
    by rewrite !channel_integer by lia.
Qed.

Lemma parseHex_returns_bytes_witness :
  parseHex (js "#DEADED") = Returns (Finite 222, Finite 173, Finite 237)
  /\ exists zr zg zb : Z,
       (Finite 222, Finite 173, Finite 237)
       = (Finite (inject_Z zr), Finite (inject_Z zg), Finite (inject_Z zb))
       /\ (0 <= zr <= 255 /\ 0 <= zg <= 255 /\ 0 <= zb <= 255)%Z.
Proof.
  assert (H : parseHex (js "#DEADED") = Returns (Finite 222, Finite 173, Finite 237))
    by (vm_compute; reflexivity).
  split; [exact H|].
  destruct (parseHex_returns_bytes _ _ _ _ H) as (zr & zg & zb & He & Hr & _).
  by exists zr, zg, zb.
Defined.

Lemma trimStart_plain (c : N) (s : jsstring) :
  isWhiteSpace c = false -> trimStart (c :: s) = c :: s.
Proof. intros H. simpl. by rewrite H. Qed.

Lemma trimEnd_plain (s : jsstring) (c : N) :
  isWhiteSpace c = false -> trimEnd (s ++ [c]) = s ++ [c].
Proof.
  intros H. unfold trimEnd. rewrite rev_app_distr. simpl rev at 2.
  change ([c] ++ rev s) with (c :: rev s).
  rewrite trimStart_plain by done. simpl. by rewrite rev_involutive.
Qed.

Lemma hexDigit_not_hash (c : N) (v : Z) :
  hexDigit c = Some v -> N.eqb c HASH = false.
Proof. intros H%hexDigit_range. apply N.eqb_neq. unfold HASH. lia. Qed.

(** X17. The short form stands for the long form with every digit doubled:
    for any three hexadecimal digits, of either case, [parseHex] gives each
    channel 17 times the value of its digit, the same bytes as for the six
    digits written out, with or without the leading [#]. *)
Theorem parseHex_short_form (a b c : N) (va vb vc : Z) :
  hexDigit a = Some va -> hexDigit b = Some vb -> hexDigit c = Some vc ->
  parseHex [a; b; c]
  = Returns (Finite (inject_Z (17 * va)), Finite (inject_Z (17 * vb)),
             Finite (inject_Z (17 * vc)))
  /\ parseHex [a; a; b; b; c; c] = parseHex [a; b; c]
  /\ parseHex [HASH; a; b; c] = parseHex [a; b; c]
  /\ parseHex [HASH; a; a; b; b; c; c] = parseHex [a; b; c].
Proof.
  intros Ha Hb Hc.
  destruct (hexDigit_plain a va Ha) as (Hwa & _).
  destruct (hexDigit_plain c vc Hc) as (Hwc & _).
  pose proof (hexDigit_not_hash a va Ha) as Hha.
  assert (Hh : isWhiteSpace HASH = false) by reflexivity.
  assert (T3 : trim [a; b; c] = [a; b; c]).
  { unfold trim. rewrite trimStart_plain by done.
    apply (trimEnd_plain [a; b] c Hwc). }
  assert (T6 : trim [a; a; b; b; c; c] = [a; a; b; b; c; c]).
  { unfold trim. rewrite trimStart_plain by done.
    apply (trimEnd_plain [a; a; b; b; c] c Hwc). }
  assert (T4 : trim [HASH; a; b; c] = [HASH; a; b; c]).
  { unfold trim. rewrite trimStart_plain by done.
    apply (trimEnd_plain [HASH; a; b] c Hwc). }
  assert (T7 : trim [HASH; a; a; b; b; c; c] = [HASH; a; a; b; b; c; c]).
  { unfold trim. rewrite trimStart_plain by done.
    apply (trimEnd_plain [HASH; a; a; b; b; c] c Hwc). }
  assert (E3 : parseHex [a; b; c]
               = Returns (byte va va, byte vb vb, byte vc vc)).
  { rewrite parseHex_refines. unfold parseHexSpec. rewrite T3.
    unfold stripHash. rewrite Hha. simpl. by rewrite Ha, Hb, Hc. }
  split; [|split; [|split]].
  - rewrite E3. unfold byte. repeat f_equal; lia.
  - rewrite E3, parseHex_refines. unfold parseHexSpec. rewrite T6.
    unfold stripHash. rewrite Hha. simpl. by rewrite Ha, Hb, Hc.
  - rewrite E3, parseHex_refines. unfold parseHexSpec. rewrite T4.
    unfold stripHash. rewrite N.eqb_refl. simpl. by rewrite Ha, Hb, Hc.
  - rewrite E3, parseHex_refines. unfold parseHexSpec. rewrite T7.
    unfold stripHash. rewrite N.eqb_refl. simpl. by rewrite Ha, Hb, Hc.
Qed.

Lemma parseHex_short_form_witness :
  hexDigit 97 = Some 10%Z /\ hexDigit 66 = Some 11%Z /\ hexDigit 99 = Some 12%Z
  /\ parseHex (js "aBc") = Returns (Finite 170, Finite 187, Finite 204)
  /\ parseHex (js "aaBBcc") = parseHex (js "aBc").
Proof.
  split; [reflexivity|]. split; [reflexivity|]. split; [reflexivity|].
  destruct (parseHex_short_form 97 66 99 10 11 12 eq_refl eq_refl eq_refl)
    as (H1 & H2 & _).
  split; [exact H1|exact H2].
Defined.

Lemma toUpperCase_cases (c : N) :
  (toUpperCase c = c /\ ~ (97 <= c <= 122))%N
  \/ (toUpperCase c = c - 32 /\ 97 <= c <= 122)%N.
Proof.
  unfold toUpperCase.
  destruct (N.leb_spec 97 c), (N.leb_spec c 122); simpl; [right|left..]; lia.
Qed.

Lemma toUpperCase_whiteSpace (c : N) :
  isWhiteSpace (toUpperCase c) = isWhiteSpace c.
Proof.
  destruct (toUpperCase_cases c) as [[-> _]|[-> H]]; [done|].
  set (d := (c - 32)%N). assert (Hd : (65 <= d <= 90)%N) by lia.
  transitivity false; [|symmetry]; unfold isWhiteSpace; simpl.
  - decide_units d. reflexivity.
  - decide_units c. reflexivity.
Qed.

Lemma toUpperCase_hash (c : N) : N.eqb (toUpperCase c) HASH = N.eqb c HASH.
Proof.
  destruct (toUpperCase_cases c) as [[-> _]|[-> H]]; [done|].
  unfold HASH. rewrite (proj2 (N.eqb_neq (c - 32) 35)) by lia.
  by rewrite (proj2 (N.eqb_neq c 35)) by lia.
Qed.

Lemma toUpperCase_hexDigit (c : N) : hexDigit (toUpperCase c) = hexDigit c.
Proof.
  destruct (toUpperCase_cases c) as [[-> _]|[-> H]]; [done|].
  unfold hexDigit.
  repeat match goal with
         | |- context [N.leb ?x ?y] => destruct (N.leb_spec x y)
         end; simpl; try lia; try reflexivity.
  f_equal. lia.
Qed.

Lemma trimStart_upper (s : jsstring) :
  trimStart (map toUpperCase s) = map toUpperCase (trimStart s).
Proof.
  induction s as [|c s IH]; [done|].
  simpl. rewrite toUpperCase_whiteSpace. by destruct (isWhiteSpace c).
Qed.

Lemma trim_upper (s : jsstring) :
  trim (map toUpperCase s) = map toUpperCase (trim s).
Proof.
  unfold trim, trimEnd.
  by rewrite trimStart_upper, <- map_rev, trimStart_upper, map_rev.
Qed.

Lemma stripHash_upper (s : jsstring) :
  stripHash (map toUpperCase s) = map toUpperCase (stripHash s).
Proof.
  destruct s as [|c s]; [done|]. simpl.
  rewrite toUpperCase_hash. by destruct (N.eqb c HASH).
Qed.

Lemma hexDigits_upper (h : jsstring) :
  hexDigits (map toUpperCase h) = hexDigits h.
Proof.
  destruct h as [|x1 [|x2 [|x3 [|x4 [|x5 [|x6 [|x7 rest]]]]]]]; try done;
    simpl; by rewrite !toUpperCase_hexDigit.
Qed.

(** X18. [parseHex] does not look at the case of letters: an input and the
    same input with its letters a to z in upper case give the same bytes,
    or fail together, the error of each carrying the input it was given. *)
Theorem parseHex_ignores_case (hex : jsstring) :
  parseHex (map toUpperCase hex)
  = match parseHex hex with
    | Returns bytes => Returns bytes
    | Throws _ => Throws (InvalidColorFormat (map toUpperCase hex))
    end.
Proof.
  rewrite !parseHex_refines. unfold parseHexSpec.
  rewrite trim_upper, stripHash_upper, hexDigits_upper.
  by destruct (hexDigits (stripHash (trim hex)))
    as [[|d1 [|d2 [|d3 [|d4 [|d5 [|d6 [|d7 ds]]]]]]]|].
Qed.

(** Inherited names: [flu.toString] finds a member of [Object.prototype] in
    the static table, and after [registerStyle("__proto__", "<", ">")] the
    name [open] finds the open sequence of the new prototype; either value
    is truthy and no style, so the access returns a builder that carries
    it. *)
Example inherited_names_resolve :
  (get flu.1 flu.2 (PString (js "toString"))).2
  = ChainedForeign flu.2 (js "toString")
  /\ (get (callRegisterStyle flu.1 (js "__proto__") (js "<") (js ">")) flu.2
        (PString (js "open"))).2
     = ChainedForeign flu.2 (js "open")
  /\ (get flu.1 flu.2 (PString (js "open"))).2 = Undefined.
Proof. vm_compute. repeat split; reflexivity. Qed.
